(** * Design-system adoption scanner: the analysis engine of scanner.js

    A shallow embedding of [getChangedFiles], [parallelProcess],
    [scanRepository], [loadTsConfig], [analyzeFile] and [resolveImport],
    followed by the properties of the scan that the specification states.

    Conventions of the embedding.
    - An [async] function is a computation in the monad [Exec]: it writes
      [console.warn] lines and either resolves with a value, rejects with an
      error, or is still running when the fuel of a loop is used up.
    - The collaborators (file system, git, glob, the Babel parser, the
      TypeScript module resolver, [path]) are fields of a record [world].
    - A JavaScript number is an exact rational or one of NaN, +Infinity,
      -Infinity.  Every finite number the aggregator adds up is a multiple
      of 1/8, which binary64 represents exactly, as it does the products by
      100 and the rounded integers.  A quotient is the exact rational where
      binary64 holds the nearest double; rounding to nearest keeps the
      order.  The sign of zero is never observed by the code and is not
      modelled. *)

From Stdlib Require Import String Ascii List Bool Arith ZArith QArith Qround Lia Lqa.
From Stdlib Require Import Permutation.
Import ListNotations.
Local Close Scope Q_scope.
Local Open Scope string_scope.
Local Open Scope list_scope.

(** ** Outcomes and the [Exec] monad *)

Definition error := string.

Inductive result (A : Type) : Type :=
| Ok (v : A)
| Exn (e : error)
| OutOfFuel.
Arguments Ok {A} v.
Arguments Exn {A} e.
Arguments OutOfFuel {A}.

(** Lines written with [console.warn], oldest first, and the outcome. *)
Definition Exec (A : Type) : Type := (list string * result A)%type.

Definition ret {A} (v : A) : Exec A := ([], Ok v).
Definition throw {A} (e : error) : Exec A := ([], Exn e).
Definition console_warn (line : string) : Exec unit := ([line], Ok tt).

Definition bind {A B} (m : Exec A) (k : A -> Exec B) : Exec B :=
  match m with
  | (l1, Ok v) => let (l2, r) := k v in (l1 ++ l2, r)
  | (l1, Exn e) => (l1, Exn e)
  | (l1, OutOfFuel) => (l1, OutOfFuel)
  end.

Notation "x <- m ;; k" := (bind m (fun x => k))
  (at level 61, m at next level, right associativity).
Notation "m ;;; k" := (bind m (fun _ => k))
  (at level 61, right associativity).

(** [try { body } catch (error) { handler }]: only an exception raised while
    the body runs reaches the handler. *)
Definition try_catch {A} (body : Exec A) (handler : error -> Exec A) : Exec A :=
  match body with
  | (l1, Exn e) => let (l2, r) := handler e in (l1 ++ l2, r)
  | other => other
  end.

(** A promise that has settled. *)
Inductive promise (A : Type) : Type :=
| Resolved (v : A)
| Rejected (e : error).
Arguments Resolved {A} v.
Arguments Rejected {A} e.

(** [await p]: the value of [p], or its rejection raised at the [await]. *)
Definition await {A} (p : promise A) : Exec A :=
  match p with
  | Resolved v => ret v
  | Rejected e => throw e
  end.

(** An async function whose body completed with [return p] for a promise [p]
    settles as [p] does.  The body has completed by then, so a [try] block
    around the [return] statement is no longer active. *)
Definition adopt {A} (body : Exec (promise A)) : Exec A :=
  p <- body ;; await p.

(** [Promise.all(xs.map(fn))].  The calls are modelled one after the other
    in item order, which fixes the order of the log lines; the value is the
    list of the values in item order, or the first rejection. *)
Fixpoint promise_all_map {A B} (fn : A -> Exec B) (xs : list A) : Exec (list B) :=
  match xs with
  | [] => ret []
  | x :: xs' =>
      v <- fn x ;;
      vs <- promise_all_map fn xs' ;;
      ret (v :: vs)
  end.

(** ** JavaScript numbers *)

Inductive jsnum : Type :=
| JFin (q : Q)
| JNaN
| JInf (positive : bool).

Definition Qsign_pos (q : Q) : bool := if Qlt_le_dec 0%Q q then true else false.
Definition Qis_zero (q : Q) : bool := if Qeq_dec q 0%Q then true else false.

Definition js_add (a b : jsnum) : jsnum :=
  match a, b with
  | JNaN, _ | _, JNaN => JNaN
  | JInf s, JInf t => if Bool.eqb s t then JInf s else JNaN
  | JInf s, JFin _ | JFin _, JInf s => JInf s
  | JFin x, JFin y => JFin (x + y)%Q
  end.

Definition js_mul (a b : jsnum) : jsnum :=
  match a, b with
  | JNaN, _ | _, JNaN => JNaN
  | JInf s, JInf t => JInf (Bool.eqb s t)
  | JInf s, JFin x | JFin x, JInf s =>
      if Qis_zero x then JNaN else JInf (Bool.eqb s (Qsign_pos x))
  | JFin x, JFin y => JFin (x * y)%Q
  end.

Definition js_div (a b : jsnum) : jsnum :=
  match a, b with
  | JNaN, _ | _, JNaN => JNaN
  | JInf _, JInf _ => JNaN
  | JInf s, JFin y => JInf (Bool.eqb s (Qsign_pos y || Qis_zero y))
  | JFin _, JInf _ => JFin 0%Q
  | JFin x, JFin y =>
      if Qis_zero y
      then (if Qis_zero x then JNaN else JInf (Qsign_pos x))
      else JFin (x / y)%Q
  end.

(** [Math.round]: the nearest integer, a tie going to the larger one. *)
Definition Math_round (a : jsnum) : jsnum :=
  match a with
  | JFin x => JFin (inject_Z (Qfloor (x + (1 # 2))%Q))
  | other => other
  end.

(** The value of [array.length] as a number. *)
Definition js_of_nat (n : nat) : jsnum := JFin (inject_Z (Z.of_nat n)).

(** Two numbers denote the same value. *)
Definition js_same (a b : jsnum) : Prop :=
  match a, b with
  | JFin x, JFin y => (x == y)%Q
  | JNaN, JNaN => True
  | JInf s, JInf t => s = t
  | _, _ => False
  end.

(** [a <= b] as JavaScript evaluates it: false as soon as one side is NaN. *)
Definition js_le (a b : jsnum) : Prop :=
  match a, b with
  | JFin x, JFin y => (x <= y)%Q
  | JInf false, JFin _ | JFin _, JInf true => True
  | JInf s, JInf t => s = t \/ (s = false /\ t = true)
  | _, _ => False
  end.

Definition js_is_finite (a : jsnum) : bool :=
  match a with JFin _ => true | _ => false end.

(** ** Synchronous code that may throw *)

Inductive completion (A : Type) : Type :=
| Normal (v : A)
| Throw (e : error).
Arguments Normal {A} v.
Arguments Throw {A} e.

Definition cbind {A B} (m : completion A) (k : A -> completion B) : completion B :=
  match m with
  | Normal v => k v
  | Throw e => Throw e
  end.

Notation "x <~ m ;; k" := (cbind m (fun x => k))
  (at level 61, m at next level, right associativity).

(** A synchronous step inside an async function. *)
Definition run_sync {A} (m : completion A) : Exec A :=
  match m with
  | Normal v => ret v
  | Throw e => throw e
  end.

(** ** Strings *)

Definition startsWith (s p : string) : bool := String.prefix p s.

Definition endsWith (s suffix : string) : bool :=
  (String.length suffix <=? String.length s)%nat
  && String.eqb
       (substring (String.length s - String.length suffix) (String.length suffix) s)
       suffix.

(** White space removed by [trim], restricted to the ASCII range. *)
Definition is_white_space (c : ascii) : bool :=
  let n := nat_of_ascii c in
  ((9 <=? n) && (n <=? 13) || (n =? 32))%nat.

Fixpoint trimStart (s : string) : string :=
  match s with
  | EmptyString => EmptyString
  | String c s' => if is_white_space c then trimStart s' else s
  end.

Fixpoint string_rev (s : string) : string :=
  match s with
  | EmptyString => EmptyString
  | String c s' => (string_rev s' ++ String c EmptyString)%string
  end.

Definition trim (s : string) : string :=
  string_rev (trimStart (string_rev (trimStart s))).

(** [s.split(sep)] for a separator of one character. *)
Fixpoint split (sep : ascii) (s : string) : list string :=
  match s with
  | EmptyString => [EmptyString]
  | String c s' =>
      if Ascii.eqb c sep then EmptyString :: split sep s'
      else match split sep s' with
           | [] => [String c EmptyString]
           | piece :: pieces => String c piece :: pieces
           end
  end.

Definition newline : ascii := ascii_of_nat 10.

(** ** Data model *)

(** What reading a field of a syntax node, or of a record, can give. *)
Inductive js_value : Type :=
| JUndefined
| JString (s : string)
| JOtherValue.

Record usage_shape : Type := { inline : nat; external : nat }.

(** One entry of the report's [components].  The three object literals of
    [analyzeFile] do not have the same fields: a field that a literal does
    not write is [None], and reads as [undefined]. *)
Record component : Type := {
  name : string;
  selector : option js_value;
  isDesignSystem : bool;
  source : js_value;
  filePath : string;
  viaComposition : option bool;
  isDynamicImport : option bool;
  usage : option usage_shape
}.

(** Truthiness of a boolean field that may be missing. *)
Definition truthy (field : option bool) : bool :=
  match field with
  | Some b => b
  | None => false
  end.

Record scan_config : Type := {
  designSystemPackages : list string;
  ignore : list string
}.

Definition DEFAULT_CONFIG : scan_config :=
  {| designSystemPackages := ["@ui-kit"; "@ds"];
     ignore := ["**/*.spec.ts"; "**/*.stories.ts"] |}.

(** [compilerOptions] of the host project, as far as module resolution reads
    them: the path aliases. *)
Definition compiler_options : Type := list (string * list string).
Record ts_config : Type := { options : compiler_options }.

(** *** Syntax trees, as far as the visitors read them *)

Inductive specifier_type : Type :=
| ImportSpecifier
| ImportDefaultSpecifier
| ImportNamespaceSpecifier.

Record specifier : Type := { type : specifier_type; local_name : string }.

(** A member of an object literal.  [key_name] is [p.key.name]: the name of
    an identifier key, [None] (undefined) for a key of another kind.
    [value_value] is [p.value.value].  A spread element has no [key], a
    method has no [value]. *)
Inductive property : Type :=
| ObjectProperty (key_name : option string) (value_value : js_value)
| ObjectMethod (key_name : option string)
| SpreadElement.

(** An argument of a call.  [OtherExpression v] is any node that is neither
    a string literal nor an object literal; [v] is its [value] field. *)
Inductive expression : Type :=
| StringLiteral (value : string)
| ObjectExpression (properties : list property)
| OtherExpression (value : js_value).

(** The [callee] of a call: [f(...)], [o.f(...)] with [property_name] the
    name of an identifier property, or anything else. *)
Inductive callee_node : Type :=
| Identifier (callee_name : string)
| MemberExpression (property_name : option string)
| OtherCallee.

(** [d.expression] of a decorator: a call [@f(...)], or an expression
    without a [callee] field such as the bare [@f]. *)
Inductive decorator : Type :=
| DecoratorCall (callee : callee_node) (arguments : list expression)
| DecoratorOther.

(** The node kinds the visitor object of [analyzeFile] has a handler for,
    and all others.  [id_name] is [None] for a class without a name;
    [decorators] is [None] when the parser leaves the field out. *)
Inductive node : Type :=
| ImportDeclaration (source_value : string) (specifiers : list specifier)
| ClassDeclaration (id_name : option string) (decorators : option (list decorator))
| CallExpression (callee : callee_node) (arguments : list expression)
| OtherNode.

(** A syntax tree: a node and its children in the order [traverse] walks
    them, which is the order of the source text. *)
#[warnings="-register-all"]
Inductive ast : Type :=
| Ast (n : node) (children : list ast).

(** The nodes in the order [traverse] enters them. *)
Fixpoint preorder (t : ast) : list node :=
  match t with
  | Ast n children => n :: flat_map preorder children
  end.

(** ** The collaborators *)

Record world : Type := {
  (** [path.join(a, b)] *)
  path_join : string -> string -> string;
  (** [path.resolve(path.dirname(filePath), importPath)] *)
  path_resolve_dirname : string -> string -> string;
  (** [fs.access(p)] *)
  fs_access : string -> promise unit;
  (** [exec('git diff --name-only HEAD', { cwd })]: what the callback is
      called with, an error or the standard output *)
  git_diff_name_only_HEAD : string -> promise string;
  (** [glob('**/*.ts', { cwd, ignore, absolute: true })] *)
  glob_ts : string -> list string -> promise (list string);
  (** [fs.readFile(p, 'utf-8')] *)
  fs_readFile : string -> promise string;
  (** [parse(content, { sourceType: 'module', plugins: [...] })] *)
  babel_parse : string -> completion ast;
  (** [ts.readConfigFile] followed by [ts.parseJsonConfigFileContent] *)
  ts_parseConfig : string -> completion ts_config;
  (** [ts.resolveModuleName(importPath, filePath, options, ts.sys)
        .resolvedModule?.resolvedFileName] *)
  ts_resolveModuleName : string -> string -> compiler_options -> option string
}.

(** ** scanner.js *)

Module WEIGHTS.
Definition designSystem : jsnum := JFin 1%Q.
Definition custom : jsnum := JFin (75 # 100)%Q.
Definition htmlElement : jsnum := JFin (25 # 100)%Q.
Definition dynamicImport : jsnum := JFin (5 # 10)%Q.
End WEIGHTS.

Definition not_a_git_repository : string :=
  "Not a git repository or git not installed. Falling back to full scan.".

(** [getChangedFiles].  The promise built around [exec] is returned from
    inside the [try] block without being awaited. *)
Definition getChangedFiles (w : world) (repoPath : string) : Exec (list string) :=
  adopt
    (try_catch
       (_ <- await (fs_access w (path_join w repoPath ".git")) ;;
        ret (match git_diff_name_only_HEAD w repoPath with
             | Rejected err => Rejected err
             | Resolved stdout =>
                 Resolved (filter (fun file => endsWith file ".ts")
                                  (split newline (trim stdout)))
             end))
       (fun _ =>
          console_warn not_a_git_repository ;;;
          ret (Resolved []))).

(** [items.slice(start, stop)] for indices that are not negative. *)
Definition slice {A} (items : list A) (start stop : nat) : list A :=
  firstn (stop - start) (skipn start items).

(** The first loop of [parallelProcess], started at index [i] with the
    batches pushed so far.  [fuel] bounds the number of iterations. *)
Fixpoint batch_loop {A} (fuel : nat) (items : list A) (limit i : nat)
    (batches : list (list A)) : option (list (list A)) :=
  match fuel with
  | O => None
  | S fuel' =>
      if (i <? length items)%nat
      then batch_loop fuel' items limit (i + limit)
             (batches ++ [slice items i (i + limit)])
      else Some batches
  end.

(** The second loop of [parallelProcess]:
    [results.push(...await Promise.all(batch.map(fn)))] for each batch. *)
Fixpoint batches_run {A B} (fn : A -> Exec B) (batches : list (list A))
    (results : list B) : Exec (list B) :=
  match batches with
  | [] => ret results
  | batch :: rest =>
      values <- promise_all_map fn batch ;;
      batches_run fn rest (results ++ values)
  end.

(** [parallelProcess]: out of fuel when the first loop has not ended. *)
Definition parallelProcess {A B} (fuel : nat) (items : list A) (fn : A -> Exec B)
    (limit : nat) : Exec (list B) :=
  match batch_loop fuel items limit 0 [] with
  | None => ([], OutOfFuel)
  | Some batches => batches_run fn batches []
  end.

Definition loadTsConfig (w : world) (tsConfigPath : string) : Exec ts_config :=
  try_catch
    (run_sync (ts_parseConfig w tsConfigPath))
    (fun error =>
       console_warn ("Failed to load tsconfig.json: " ++ error
                     ++ ". Using default TypeScript configuration.")%string ;;;
       ret {| options := [] |}).

Definition getTypeScriptFiles (w : world) (dir : string) (ignore : list string)
  : Exec (list string) :=
  adopt (ret (glob_ts w dir ignore)).

(** [resolveImport].  An empty [resolvedFileName] is falsy, so [||] falls
    back to the specifier for it as for a missing one. *)
Definition resolveImport (w : world) (importPath filePath : string)
    (tsConfig : ts_config) : string :=
  if startsWith importPath "."
  then path_resolve_dirname w filePath importPath
  else match ts_resolveModuleName w importPath filePath (options tsConfig) with
       | Some (String c rest) => String c rest
       | Some EmptyString | None => importPath
       end.

(** *** The visitors of [analyzeFile] *)

(** The two variables the visitors close over. *)
Record visitor_state : Type := {
  components : list component;
  usesDesignSystem : bool
}.

Definition push (st : visitor_state) (c : component) : visitor_state :=
  {| components := components st ++ [c];
     usesDesignSystem := usesDesignSystem st |}.

Definition is_named_or_default (s : specifier) : bool :=
  match type s with
  | ImportSpecifier | ImportDefaultSpecifier => true
  | ImportNamespaceSpecifier => false
  end.

Definition is_design_system_source (config : scan_config) (resolvedSource : string) : bool :=
  existsb (fun pkg => startsWith resolvedSource pkg) (designSystemPackages config).

Definition visit_ImportDeclaration (w : world) (filePath : string)
    (tsConfig : ts_config) (config : scan_config)
    (source_value : string) (specifiers : list specifier)
    (st : visitor_state) : completion visitor_state :=
  let resolvedSource := resolveImport w source_value filePath tsConfig in
  if is_design_system_source config resolvedSource
  then Normal
         {| components :=
              components st ++
              map (fun s =>
                     {| name := local_name s;
                        selector := None;
                        isDesignSystem := true;
                        source := JString resolvedSource;
                        filePath := filePath;
                        viaComposition := None;
                        isDynamicImport := None;
                        usage := Some {| inline := 0; external := 0 |} |})
                  (filter is_named_or_default specifiers);
            usesDesignSystem := true |}
  else Normal st.

Definition name_is (key : option string) (s : string) : bool :=
  match key with
  | Some k => String.eqb k s
  | None => false
  end.

Definition callee_name_of (c : callee_node) : option string :=
  match c with
  | Identifier n => Some n
  | _ => None
  end.

Definition callee_property_name_of (c : callee_node) : option string :=
  match c with
  | MemberExpression pn => pn
  | _ => None
  end.

Definition is_Component_decorator (d : decorator) : bool :=
  match d with
  | DecoratorCall c _ =>
      name_is (callee_name_of c) "Component"
      || name_is (callee_property_name_of c) "Component"
  | DecoratorOther => false
  end.

Definition TypeError (of_what field : string) : error :=
  ("Cannot read properties of " ++ of_what ++ " (reading '" ++ field ++ "')")%string.

(** [p.key.name] *)
Definition property_key_name (p : property) : completion (option string) :=
  match p with
  | ObjectProperty k _ | ObjectMethod k => Normal k
  | SpreadElement => Throw (TypeError "undefined" "name")
  end.

(** [props.find(p => pred(p.key.name))] *)
Fixpoint find_property (pred : option string -> bool) (props : list property)
  : completion (option property) :=
  match props with
  | [] => Normal None
  | p :: rest =>
      k <~ property_key_name p ;;
      if pred k then Normal (Some p) else find_property pred rest
  end.

(** [found?.value.value] *)
Definition optional_value_value (found : option property) : completion js_value :=
  match found with
  | None => Normal JUndefined
  | Some (ObjectProperty _ v) => Normal v
  | Some (ObjectMethod _) | Some SpreadElement => Throw (TypeError "undefined" "value")
  end.

(** [found?.key.name === 'template'] *)
Definition optional_key_is_template (found : option property) : completion bool :=
  match found with
  | None => Normal false
  | Some p => k <~ property_key_name p ;; Normal (name_is k "template")
  end.

(** [decorator.expression.arguments[0].properties] *)
Definition first_argument_properties (d : decorator)
  : completion (option (list property)) :=
  match d with
  | DecoratorOther => Throw (TypeError "undefined" "0")
  | DecoratorCall _ [] => Throw (TypeError "undefined" "properties")
  | DecoratorCall _ (ObjectExpression props :: _) => Normal (Some props)
  | DecoratorCall _ (_ :: _) => Normal None
  end.

Definition visit_ClassDeclaration (filePath : string)
    (id_name : option string) (decorators : option (list decorator))
    (st : visitor_state) : completion visitor_state :=
  let decorator :=
    match decorators with
    | None => None
    | Some ds => find is_Component_decorator ds
    end in
  match decorator with
  | None => Normal st
  | Some d =>
      maybe_props <~ first_argument_properties d ;;
      props <~ match maybe_props with
               | Some props => Normal props
               | None => Throw (TypeError "undefined" "find")
               end ;;
      found_selector <~ find_property (fun k => name_is k "selector") props ;;
      selector_value <~ optional_value_value found_selector ;;
      templateProp <~ find_property
                        (fun k => name_is k "template" || name_is k "templateUrl")
                        props ;;
      isInlineTemplate <~ optional_key_is_template templateProp ;;
      class_name <~ match id_name with
                    | Some n => Normal n
                    | None => Throw (TypeError "null" "name")
                    end ;;
      Normal (push st
                {| name := class_name;
                   selector := Some selector_value;
                   isDesignSystem := false;
                   source := JString "custom";
                   filePath := filePath;
                   viaComposition := Some (usesDesignSystem st);
                   isDynamicImport := None;
                   usage := Some {| inline := if isInlineTemplate then 1 else 0;
                                    external := if isInlineTemplate then 0 else 1 |} |})
  end.

(** [node.value] of an argument *)
Definition expression_value (e : expression) : js_value :=
  match e with
  | StringLiteral s => JString s
  | ObjectExpression _ => JUndefined
  | OtherExpression v => v
  end.

Definition visit_CallExpression (filePath : string)
    (callee : callee_node) (arguments : list expression)
    (st : visitor_state) : completion visitor_state :=
  if name_is (callee_name_of callee) "loadChildren"
  then match arguments with
       | [] => Throw (TypeError "undefined" "value")
       | first :: _ =>
           Normal (push st
                     {| name := "lazy-loaded";
                        selector := None;
                        isDesignSystem := false;
                        source := expression_value first;
                        filePath := filePath;
                        viaComposition := None;
                        isDynamicImport := Some true;
                        usage := None |})
       end
  else Normal st.

Definition visit (w : world) (filePath : string) (tsConfig : ts_config)
    (config : scan_config) (n : node) (st : visitor_state)
  : completion visitor_state :=
  match n with
  | ImportDeclaration source_value specifiers =>
      visit_ImportDeclaration w filePath tsConfig config source_value specifiers st
  | ClassDeclaration id_name decorators =>
      visit_ClassDeclaration filePath id_name decorators st
  | CallExpression callee arguments =>
      visit_CallExpression filePath callee arguments st
  | OtherNode => Normal st
  end.

(** The handlers run on the nodes in the order they are entered; the first
    exception ends the walk. *)
Fixpoint visit_all (w : world) (filePath : string) (tsConfig : ts_config)
    (config : scan_config) (nodes : list node) (st : visitor_state)
  : completion visitor_state :=
  match nodes with
  | [] => Normal st
  | n :: rest =>
      st' <~ visit w filePath tsConfig config n st ;;
      visit_all w filePath tsConfig config rest st'
  end.

Definition initial_state : visitor_state :=
  {| components := []; usesDesignSystem := false |}.

Definition traverse (w : world) (filePath : string) (tsConfig : ts_config)
    (config : scan_config) (tree : ast) : completion visitor_state :=
  visit_all w filePath tsConfig config (preorder tree) initial_state.

Definition analyzeFile (w : world) (filePath : string) (tsConfig : ts_config)
    (config : scan_config) : Exec (list component) :=
  try_catch
    (content <- await (fs_readFile w filePath) ;;
     tree <- run_sync (babel_parse w content) ;;
     st <- run_sync (traverse w filePath tsConfig config tree) ;;
     ret (components st))
    (fun error =>
       console_warn ("Failed to analyze " ++ filePath ++ ": " ++ error)%string ;;;
       ret []).

(** *** The aggregation at the end of [scanRepository] *)

Module Summary.
Record t : Type := {
  designSystemComponents : nat;
  customComponents : nat;
  totalComponents : nat;
  adoptionPercentage : jsnum;
  weightedScore : jsnum;
  maxScore : jsnum
}.
End Summary.

Module Report.
Record t : Type := {
  summary : Summary.t;
  components : list component
}.
End Report.

(** The weight chosen inside the [reduce] callback. *)
Definition weight (c : component) : jsnum :=
  if isDesignSystem c then WEIGHTS.designSystem
  else if truthy (isDynamicImport c) then WEIGHTS.dynamicImport
  else if truthy (viaComposition c)
       then js_div (js_add WEIGHTS.custom WEIGHTS.designSystem) (JFin 2%Q)
       else WEIGHTS.custom.

(** The local variables [weightedScore], [maxScore] and
    [adoptionPercentage], before they are rounded for the summary. *)
Definition weightedScore (flatComponents : list component) : jsnum :=
  fold_left (fun sum c => js_add sum (weight c)) flatComponents (JFin 0%Q).

Definition maxScore (flatComponents : list component) : jsnum :=
  js_mul (js_of_nat (length flatComponents)) WEIGHTS.designSystem.

Definition adoptionPercentage (flatComponents : list component) : jsnum :=
  js_mul (js_div (weightedScore flatComponents) (maxScore flatComponents))
         (JFin 100%Q).

(** [Math.round(x * 100) / 100] *)
Definition round2 (x : jsnum) : jsnum :=
  js_div (Math_round (js_mul x (JFin 100%Q))) (JFin 100%Q).

Definition aggregate (components : list (list component)) : Report.t :=
  let flatComponents := concat components in
  let designSystemComponents := filter (fun c => isDesignSystem c) flatComponents in
  let customComponents := filter (fun c => negb (isDesignSystem c)) flatComponents in
  let totalComponents := length flatComponents in
  {| Report.summary :=
       {| Summary.designSystemComponents := length designSystemComponents;
          Summary.customComponents := length customComponents;
          Summary.totalComponents := totalComponents;
          Summary.adoptionPercentage := round2 (adoptionPercentage flatComponents);
          Summary.weightedScore := round2 (weightedScore flatComponents);
          Summary.maxScore := round2 (maxScore flatComponents) |};
     Report.components := flatComponents |}.

(** The limit [parallelProcess] uses when the caller passes none. *)
Definition default_limit : nat := 10.

(** [scanRepository].  The batching loop gets one unit of fuel more than
    there are files, which is enough for the limit 10
    (lemma [batch_loop_chunks]). *)
Definition scanRepository (w : world) (repoPath : string) (config : scan_config)
    (incremental : bool) : Exec Report.t :=
  let tsConfigPath := path_join w repoPath "tsconfig.json" in
  tsConfig <- loadTsConfig w tsConfigPath ;;
  files <- (if incremental
            then files <- getChangedFiles w repoPath ;;
                 if (length files =? 0)%nat
                 then getTypeScriptFiles w repoPath (ignore config)
                 else ret files
            else getTypeScriptFiles w repoPath (ignore config)) ;;
  components <- parallelProcess (S (length files)) files
                  (fun file => analyzeFile w file tsConfig config)
                  default_limit ;;
  ret (aggregate components).

(** ** index.js *)

(** A parsed JSON document.  The members of an object are its own
    properties in insertion order, each key once. *)
#[warnings="-register-all"]
Inductive json : Type :=
| JsonNull
| JsonBool (b : bool)
| JsonNumber (q : Q)
| JsonString (s : string)
| JsonArray (items : list json)
| JsonObject (members : list (string * json)).

(** [object[key]], [None] for a key the object does not have. *)
Definition member (key : string) (members : list (string * json)) : option json :=
  match find (fun kv => String.eqb (fst kv) key) members with
  | Some (_, v) => Some v
  | None => None
  end.

Definition is_json_string (j : json) : bool :=
  match j with
  | JsonString _ => true
  | _ => false
  end.

(** The subschema [{ type: 'array', items: { type: 'string' } }]. *)
Definition is_array_of_strings (j : json) : bool :=
  match j with
  | JsonArray items => forallb is_json_string items
  | _ => false
  end.

(** [validateConfig], the compiled [configSchema]: an object (not an array,
    not null) that has both required properties, each an array of strings.
    Other properties are allowed. *)
Definition validateConfig (data : json) : bool :=
  match data with
  | JsonObject members =>
      match member "designSystemPackages" members, member "ignore" members with
      | Some packages, Some ignored =>
          is_array_of_strings packages && is_array_of_strings ignored
      | _, _ => false
      end
  | _ => false
  end.

(** The strings of an array; on an array of strings nothing is left out. *)
Definition string_items (j : json) : list string :=
  match j with
  | JsonArray items =>
      flat_map (fun item => match item with
                            | JsonString s => [s]
                            | _ => []
                            end) items
  | _ => []
  end.

(** [{ ...DEFAULT_CONFIG, ...config }], as far as the scanner reads it: a
    property of [config] replaces the default of the same name. *)
Definition spread_over_default (config : json) : scan_config :=
  let members := match config with
                 | JsonObject members => members
                 | _ => []
                 end in
  {| designSystemPackages :=
       match member "designSystemPackages" members with
       | Some v => string_items v
       | None => designSystemPackages DEFAULT_CONFIG
       end;
     ignore :=
       match member "ignore" members with
       | Some v => string_items v
       | None => ignore DEFAULT_CONFIG
       end |}.

Module Options.
(** [program.opts()]: an option that was not given is [None]. *)
Record t : Type := {
  path : option string;
  output : option string;
  config : option string;
  incremental : bool
}.
End Options.

(** A string option that is truthy: given and not empty. *)
Definition given (o : option string) : option string :=
  match o with
  | Some (String c rest) => Some (String c rest)
  | Some EmptyString | None => None
  end.

Module Metadata.
Record t : Type := {
  timestamp : string;
  repoPath : string;
  incremental : bool
}.
End Metadata.

Module FinalReport.
Record t : Type := {
  metadata : Metadata.t;
  summary : Summary.t;
  components : list component
}.
End FinalReport.

(** The collaborators of the command line. *)
Record cli_world : Type := {
  (** [(await fs.stat(p)).isDirectory()] *)
  fs_stat_isDirectory : string -> promise bool;
  (** [JSON.parse(text)] *)
  JSON_parse : string -> completion json;
  (** [ajv.errorsText(validateConfig.errors)] after validating the value *)
  ajv_errorsText : json -> string;
  (** [path.resolve(process.cwd(), p)] *)
  path_resolve_cwd : string -> string;
  (** [fs.writeFile(p, text)] *)
  fs_writeFile : string -> string -> promise unit;
  (** [JSON.stringify(finalReport, null, 2)] *)
  JSON_stringify : FinalReport.t -> string;
  (** [new Date().toISOString()] *)
  Date_toISOString : string
}.

Definition validatePath (cli : cli_world) (path : string) : Exec unit :=
  try_catch
    (isDirectory <- await (fs_stat_isDirectory cli path) ;;
     if negb isDirectory
     then throw "The provided path is not a directory"
     else ret tt)
    (fun error => throw ("Invalid path: " ++ error)%string).

Definition loadConfig (w : world) (cli : cli_world) (configPath : string)
  : Exec scan_config :=
  try_catch
    (configFile <- await (fs_readFile w configPath) ;;
     config <- run_sync (JSON_parse cli configFile) ;;
     if negb (validateConfig config)
     then throw ("Invalid configuration: " ++ ajv_errorsText cli config)%string
     else ret (spread_over_default config))
    (fun error =>
       console_warn ("Failed to load config: " ++ error
                     ++ ". Using default configuration.")%string ;;;
       ret DEFAULT_CONFIG).

(** How the process ends: the report written to a file and
    [Report saved to ...] printed, the report printed, or [process.exit]
    after [console.error] of the context and the error. *)
Inductive run_outcome : Type :=
| Saved (outputPath text : string)
| Printed (text : string)
| Exited (code : nat) (context : string) (e : error).

(** [handleError]: it does not return. *)
Definition handleError (e : error) (context : string) : Exec run_outcome :=
  ret (Exited 1 context e).

(** [run], with [repoPath] the value of [options.path]. *)
Definition run (w : world) (cli : cli_world) (options : Options.t)
    (repoPath : string) : Exec run_outcome :=
  try_catch
    (_ <- validatePath cli repoPath ;;
     config <- match given (Options.config options) with
               | Some c => loadConfig w cli (path_resolve_cwd cli c)
               | None => ret DEFAULT_CONFIG
               end ;;
     report <- scanRepository w repoPath config (Options.incremental options) ;;
     let finalReport :=
       {| FinalReport.metadata :=
            {| Metadata.timestamp := Date_toISOString cli;
               Metadata.repoPath := repoPath;
               Metadata.incremental := Options.incremental options || false |};
          FinalReport.summary := Report.summary report;
          FinalReport.components := Report.components report |} in
     match given (Options.output options) with
     | Some o =>
         let outputPath := path_resolve_cwd cli o in
         _ <- await (fs_writeFile cli outputPath (JSON_stringify cli finalReport)) ;;
         ret (Saved outputPath (JSON_stringify cli finalReport))
     | None => ret (Printed (JSON_stringify cli finalReport))
     end)
    (fun error => handleError error "Error during repository scan").

(** The top level of index.js: the check of [options.path], then [run()]. *)
Definition main (w : world) (cli : cli_world) (options : Options.t)
  : Exec run_outcome :=
  match given (Options.path options) with
  | None =>
      handleError
        "Please provide a path to the repository using the -p or --path option" ""
  | Some repoPath => run w cli options repoPath
  end.

(** ** Vocabulary of the specification *)

(** [ceil(n / l)] on natural numbers. *)
Definition ceil_div (n l : nat) : nat := (n + l - 1) / l.

(** The three classes of the specification, read off the flags the
    aggregator tests, in the order it tests them. *)
Inductive classification : Type :=
| design_system_import
| custom_component
| dynamic_import_reference.

Definition classify (c : component) : classification :=
  if isDesignSystem c then design_system_import
  else if truthy (isDynamicImport c) then dynamic_import_reference
  else custom_component.

Definition classification_eqb (a b : classification) : bool :=
  match a, b with
  | design_system_import, design_system_import
  | custom_component, custom_component
  | dynamic_import_reference, dynamic_import_reference => true
  | _, _ => false
  end.

(** How many records of a list fall in a class. *)
Definition count_class (k : classification) (l : list component) : nat :=
  length (filter (fun c => classification_eqb (classify c) k) l).

(** [compositionFlag] of the specification. *)
Definition compositionFlag (c : component) : bool := truthy (viaComposition c).

(** The weight table of the specification (section 4.5). *)
Definition spec_weight (k : classification) (flag : bool) : Q :=
  match k with
  | design_system_import => 1%Q
  | dynamic_import_reference => (1 # 2)%Q
  | custom_component => if flag then (875 # 1000)%Q else (75 # 100)%Q
  end.

Definition sumQ (l : list Q) : Q := fold_right Qplus 0%Q l.

(** The rational the [reduce] callback adds for a record. *)
Definition weight_Q (c : component) : Q :=
  if isDesignSystem c then 1%Q
  else if truthy (isDynamicImport c) then (5 # 10)%Q
  else if truthy (viaComposition c)
       then (((75 # 100) + 1) / 2)%Q
       else (75 # 100)%Q.

(** An import whose resolved source starts with a configured prefix. *)
Definition qualifying_import (w : world) (filePath : string) (tsConfig : ts_config)
    (config : scan_config) (n : node) : bool :=
  match n with
  | ImportDeclaration source_value _ =>
      is_design_system_source config (resolveImport w source_value filePath tsConfig)
  | _ => false
  end.

(** A class that carries the component annotation. *)
Definition has_Component_decorator (decorators : option (list decorator)) : bool :=
  match decorators with
  | Some ds => existsb is_Component_decorator ds
  | None => false
  end.

(** The test of the second [find] of the class handler. *)
Definition is_template_key (k : option string) : bool :=
  name_is k "template" || name_is k "templateUrl".

(** No member of the payload is named [template] or [templateUrl]. *)
Definition no_template_field (props : list property) : bool :=
  forallb (fun p => match p with
                    | ObjectProperty k _ | ObjectMethod k => negb (is_template_key k)
                    | SpreadElement => true
                    end) props.

(** The file can be read and its content parses. *)
Definition reads_and_parses (w : world) (filePath : string) : bool :=
  match fs_readFile w filePath with
  | Resolved content =>
      match babel_parse w content with
      | Normal _ => true
      | Throw _ => false
      end
  | Rejected _ => false
  end.

(** The value an async call resolved with, the empty list if it did not. *)
Definition resolved_list {A} (x : Exec (list A)) : list A :=
  match snd x with
  | Ok l => l
  | _ => []
  end.


(** ** Example inputs *)

Module Examples.

(** A repository given by its files (path and content), the syntax trees
    of the contents that parse, whether [.git] is there, and what
    [git diff] answers.  There is no tsconfig and no module resolves. *)
Definition repository (files : list (string * string))
    (trees : list (string * ast)) (git_present : bool)
    (git_diff : promise string) : world :=
  {| path_join := fun a b => (a ++ "/" ++ b)%string;
     path_resolve_dirname := fun filePath importPath =>
                               ("/repo/src/" ++ importPath)%string;
     fs_access := fun _ => if git_present then Resolved tt
                           else Rejected "ENOENT: no such file or directory";
     git_diff_name_only_HEAD := fun _ => git_diff;
     glob_ts := fun _ _ => Resolved (map fst files);
     fs_readFile := fun p =>
                      match find (fun f => String.eqb (fst f) p) files with
                      | Some (_, content) => Resolved content
                      | None => Rejected "ENOENT: no such file or directory"
                      end;
     babel_parse := fun content =>
                      match find (fun t => String.eqb (fst t) content) trees with
                      | Some (_, tree) => Normal tree
                      | None => Throw "Unexpected token"
                      end;
     ts_parseConfig := fun _ => Throw "Cannot read tsconfig.json";
     ts_resolveModuleName := fun _ _ _ => None |}.

(** [import { Button } from '@ui-kit/button';] *)
Definition import_Button : node :=
  ImportDeclaration "@ui-kit/button"
    [{| type := ImportSpecifier; local_name := "Button" |}].

(** [@Component({ selector: 'app-card', templateUrl: './card.html' })
     class Card {}] *)
Definition class_Card : node :=
  ClassDeclaration (Some "Card")
    (Some [DecoratorCall (Identifier "Component")
             [ObjectExpression
                [ObjectProperty (Some "selector") (JString "app-card");
                 ObjectProperty (Some "templateUrl") (JString "./card.html")]]]).

(** [@Component({ selector: 'app-bare' }) class Bare {}]: no template. *)
Definition class_Bare : node :=
  ClassDeclaration (Some "Bare")
    (Some [DecoratorCall (Identifier "Component")
             [ObjectExpression
                [ObjectProperty (Some "selector") (JString "app-bare")]]]).

(** [@Component() class Empty {}]: the annotation has no argument. *)
Definition class_Empty : node :=
  ClassDeclaration (Some "Empty")
    (Some [DecoratorCall (Identifier "Component") []]).

(** [loadChildren('./lazy/module')] and [loadChildren()] *)
Definition call_lazy : node :=
  CallExpression (Identifier "loadChildren") [StringLiteral "./lazy/module"].
Definition call_lazy_no_argument : node :=
  CallExpression (Identifier "loadChildren") [].

(** The subtree of a top-level statement.  Under a class come the call of
    each decorator that is a call, with its arguments, and the class body;
    under a call come its callee and its arguments. *)
Definition leaf : ast := Ast OtherNode [].

Definition call_subtree (callee : callee_node) (arguments : list expression) : ast :=
  Ast (CallExpression callee arguments) (leaf :: map (fun _ => leaf) arguments).

Definition decorator_subtree (d : decorator) : ast :=
  match d with
  | DecoratorCall callee arguments =>
      Ast OtherNode [call_subtree callee arguments]
  | DecoratorOther => Ast OtherNode [leaf]
  end.

Definition statement (n : node) : ast :=
  match n with
  | ImportDeclaration _ specifiers => Ast n (map (fun _ => leaf) specifiers ++ [leaf])
  | ClassDeclaration _ decorators =>
      Ast n (match decorators with
             | Some ds => map decorator_subtree ds
             | None => []
             end ++ [leaf; leaf])
  | CallExpression callee arguments =>
      Ast OtherNode [call_subtree callee arguments]
  | OtherNode => leaf
  end.

(** A file: the [File] node, its [Program], and the top-level statements. *)
Definition program (statements : list node) : ast :=
  Ast OtherNode [Ast OtherNode (map statement statements)].

(** What the walk enters before the second statement of a file that starts
    with [import_Button]: file, program, the import, its specifier and its
    source. *)
Definition entered_before_second_statement : list node :=
  [OtherNode; OtherNode; import_Button; OtherNode; OtherNode].

Definition import_then_class : ast := program [import_Button; class_Card].
Definition class_then_import : ast := program [class_Card; import_Button].
Definition bare_class : ast := program [class_Bare].
Definition import_then_empty_annotation : ast := program [import_Button; class_Empty].
Definition import_then_empty_call : ast := program [import_Button; call_lazy_no_argument].

Definition trees : list (string * ast) :=
  [("import-then-class", import_then_class);
   ("class-then-import", class_then_import);
   ("bare-class", bare_class);
   ("import-then-empty-annotation", import_then_empty_annotation);
   ("import-then-empty-call", import_then_empty_call)].

(** Three files; the second one does not parse. *)
Definition three_files : world :=
  repository [("/repo/a.ts", "import-then-class");
              ("/repo/b.ts", "@@@");
              ("/repo/c.ts", "class-then-import")]
             trees false (Rejected "unused").

(** The same repository without the file that does not parse. *)
Definition two_files : world :=
  repository [("/repo/a.ts", "import-then-class");
              ("/repo/c.ts", "class-then-import")]
             trees false (Rejected "unused").

(** A repository without any TypeScript file. *)
Definition empty_repo : world :=
  repository [] trees false (Rejected "unused").

(** [.git] is there, and [git diff --name-only HEAD] fails. *)
Definition git_diff_fails : world :=
  repository [("/repo/a.ts", "import-then-class")] trees true
    (Rejected "Command failed: git diff --name-only HEAD").

(** No [.git] directory. *)
Definition no_git : world :=
  repository [("/repo/a.ts", "import-then-class")] trees false
    (Rejected "unused").

(** One file each for the three classes the examples single out. *)
Definition bare_class_file : world :=
  repository [("/repo/bare.ts", "bare-class")] trees false (Rejected "unused").
Definition empty_annotation_file : world :=
  repository [("/repo/empty.ts", "import-then-empty-annotation")] trees false
    (Rejected "unused").
Definition empty_call_file : world :=
  repository [("/repo/routes.ts", "import-then-empty-call")] trees false
    (Rejected "unused").

Definition no_tsconfig : ts_config := {| options := [] |}.

End Examples.

(** ** Vocabulary of the further properties *)

(** The character occurs in the string. *)
Fixpoint has_char (c : ascii) (s : string) : bool :=
  match s with
  | EmptyString => false
  | String d s' => Ascii.eqb d c || has_char c s'
  end.

(** The string is made of white space only (the empty string included). *)
Fixpoint all_white_space (s : string) : bool :=
  match s with
  | EmptyString => true
  | String c s' => is_white_space c && all_white_space s'
  end.

(** The records the three object literals of [analyzeFile] can build, for a
    file path, a configuration and a value of [usesDesignSystem]. *)
Inductive emitted (filePath : string) (config : scan_config) (uses : bool)
  : component -> Prop :=
| emitted_by_import (local resolvedSource : string) :
    is_design_system_source config resolvedSource = true ->
    emitted filePath config uses
      {| name := local;
         selector := None;
         isDesignSystem := true;
         source := JString resolvedSource;
         filePath := filePath;
         viaComposition := None;
         isDynamicImport := None;
         usage := Some {| inline := 0; external := 0 |} |}
| emitted_by_class (class_name : string) (selector_value : js_value)
    (isInlineTemplate : bool) :
    emitted filePath config uses
      {| name := class_name;
         selector := Some selector_value;
         isDesignSystem := false;
         source := JString "custom";
         filePath := filePath;
         viaComposition := Some uses;
         isDynamicImport := None;
         usage := Some {| inline := if isInlineTemplate then 1 else 0;
                          external := if isInlineTemplate then 0 else 1 |} |}
| emitted_by_call (first_value : js_value) :
    emitted filePath config uses
      {| name := "lazy-loaded";
         selector := None;
         isDesignSystem := false;
         source := first_value;
         filePath := filePath;
         viaComposition := None;
         isDynamicImport := Some true;
         usage := None |}.

(** A flagged record is not followed by an unflagged custom record. *)
Definition flag_kept (earlier later : component) : Prop :=
  compositionFlag earlier = true ->
  classify later = custom_component ->
  compositionFlag later = true.

(** What the walk keeps true of its state: a flagged record is there only
    if the accumulator is set, and flags do not go back to false. *)
Definition flags_in_order (st : visitor_state) : Prop :=
  (forall c, In c (components st) -> compositionFlag c = true ->
             usesDesignSystem st = true) /\
  ForallOrdPairs flag_kept (components st).

(** The context [run] hands to [handleError]. *)
Definition scan_error : string := "Error during repository scan".

(** The configuration [run] scans with. *)
Definition chosen_config (w : world) (cli : cli_world) (options : Options.t)
  : scan_config :=
  match given (Options.config options) with
  | Some c =>
      match snd (loadConfig w cli (path_resolve_cwd cli c)) with
      | Ok loaded => loaded
      | _ => DEFAULT_CONFIG
      end
  | None => DEFAULT_CONFIG
  end.

(** The value [run] serialises for a report. *)
Definition final_report (cli : cli_world) (options : Options.t)
    (repoPath : string) (report : Report.t) : FinalReport.t :=
  {| FinalReport.metadata :=
       {| Metadata.timestamp := Date_toISOString cli;
          Metadata.repoPath := repoPath;
          Metadata.incremental := Options.incremental options || false |};
     FinalReport.summary := Report.summary report;
     FinalReport.components := Report.components report |}.

(** The options without the [-c] option. *)
Definition without_config (options : Options.t) : Options.t :=
  {| Options.path := Options.path options;
     Options.output := Options.output options;
     Options.config := None;
     Options.incremental := Options.incremental options |}.

(** Two summaries show the same values. *)
Definition summary_same (s1 s2 : Summary.t) : Prop :=
  Summary.designSystemComponents s1 = Summary.designSystemComponents s2 /\
  Summary.customComponents s1 = Summary.customComponents s2 /\
  Summary.totalComponents s1 = Summary.totalComponents s2 /\
  js_same (Summary.adoptionPercentage s1) (Summary.adoptionPercentage s2) /\
  js_same (Summary.weightedScore s1) (Summary.weightedScore s2) /\
  js_same (Summary.maxScore s1) (Summary.maxScore s2).

(** The local names an import declaration binds as design-system
    components: those of its named and default specifiers, when its
    resolved source starts with a configured prefix. *)
Definition design_system_bindings (w : world) (filePath : string)
    (tsConfig : ts_config) (config : scan_config) (n : node) : list string :=
  match n with
  | ImportDeclaration source_value specifiers =>
      if is_design_system_source config
           (resolveImport w source_value filePath tsConfig)
      then map local_name (filter is_named_or_default specifiers)
      else []
  | _ => []
  end.

(** The names of the design-system records of a list, in order. *)
Definition design_system_names (records : list component) : list string :=
  map name (filter (fun c => isDesignSystem c) records).

(** The per-file lists a scan of the given files aggregates. *)
Definition analysed (w : world) (tsConfig : ts_config) (config : scan_config)
    (files : list string) : list (list component) :=
  map (fun file => resolved_list (analyzeFile w file tsConfig config)) files.

Module CliExamples.

(** A command line where [/repo] is a directory and [/repo/a.ts] a file,
    JSON documents are given by a table, and writing succeeds. *)
Definition cli (documents : list (string * json)) : cli_world :=
  {| fs_stat_isDirectory := fun p =>
       if String.eqb p "/repo" then Resolved true
       else if String.eqb p "/repo/a.ts" then Resolved false
       else Rejected "ENOENT: no such file or directory";
     JSON_parse := fun text =>
       match find (fun d => String.eqb (fst d) text) documents with
       | Some (_, j) => Normal j
       | None => Throw "Unexpected token in JSON"
       end;
     ajv_errorsText := fun _ => "data must have required property";
     path_resolve_cwd := fun p => ("/cwd/" ++ p)%string;
     fs_writeFile := fun _ _ => Resolved tt;
     JSON_stringify := fun _ => "{ ... }";
     Date_toISOString := "2023-05-20T12:34:56.789Z" |}.

(** [{ "designSystemPackages": ["@acme"], "ignore": [], "extra": 1 }] *)
Definition acme_config : json :=
  JsonObject [("designSystemPackages", JsonArray [JsonString "@acme"]);
              ("ignore", JsonArray []);
              ("extra", JsonNumber 1%Q)].

(** [{ "designSystemPackages": "@acme", "ignore": [] }]: not an array. *)
Definition bad_config : json :=
  JsonObject [("designSystemPackages", JsonString "@acme");
              ("ignore", JsonArray [])].

Definition documents : list (string * json) :=
  [("acme", acme_config); ("bad", bad_config)].

(** The repository of [Examples.no_git], and two configuration files
    outside of it. *)
Definition repo_with_configs : world :=
  let w := Examples.no_git in
  {| path_join := path_join w;
     path_resolve_dirname := path_resolve_dirname w;
     fs_access := fs_access w;
     git_diff_name_only_HEAD := git_diff_name_only_HEAD w;
     glob_ts := glob_ts w;
     fs_readFile := fun p =>
       if String.eqb p "/cwd/acme.json" then Resolved "acme"
       else if String.eqb p "/cwd/bad.json" then Resolved "bad"
       else fs_readFile w p;
     babel_parse := babel_parse w;
     ts_parseConfig := ts_parseConfig w;
     ts_resolveModuleName := ts_resolveModuleName w |}.

(** What [git diff --name-only HEAD] prints for three changed files. *)
Definition git_output : string :=
  ("src/a.ts" ++ String newline ("README.md" ++ String newline
     ("src/b.ts" ++ String newline "")))%string.

(** A repository with [.git] whose working tree has these changes. *)
Definition changed_repo : world :=
  Examples.repository [("src/a.ts", "import-then-class");
                       ("src/b.ts", "class-then-import");
                       ("src/c.ts", "bare-class")]
    Examples.trees true (Resolved git_output).

(** [import * as kit from '@ui-kit/core';] and a default import. *)
Definition import_namespace : node :=
  ImportDeclaration "@ui-kit/core"
    [{| type := ImportNamespaceSpecifier; local_name := "kit" |}].
Definition import_default_and_named : node :=
  ImportDeclaration "@ds/forms"
    [{| type := ImportDefaultSpecifier; local_name := "Forms" |};
     {| type := ImportSpecifier; local_name := "Field" |}].

(** A namespace import, a class, two more bindings, a second class. *)
Definition two_classes : ast :=
  Examples.program [import_namespace; Examples.class_Card;
                    import_default_and_named; Examples.class_Bare].

Definition two_classes_file : world :=
  Examples.repository [("/repo/two.ts", "two-classes")]
    [("two-classes", two_classes)] false (Rejected "unused").

(** An import, then [loadChildren('./lazy/module')]. *)
Definition import_then_lazy : ast :=
  Examples.program [Examples.import_Button; Examples.call_lazy].

Definition lazy_file : world :=
  Examples.repository [("/repo/routes.ts", "import-then-lazy")]
    [("import-then-lazy", import_then_lazy)] false (Rejected "unused").

Definition options (path config output : option string) (incremental : bool)
  : Options.t :=
  {| Options.path := path;
     Options.output := output;
     Options.config := config;
     Options.incremental := incremental |}.

End CliExamples.

Module ResolverExamples.



End ResolverExamples.

(** * Properties *)

(** A conjunct settled by evaluation. *)
Ltac evaluated_conjunct := split; [vm_compute; reflexivity|].

(** ** The monad *)

Lemma snd_bind_Ok {A B} (m : Exec A) (k : A -> Exec B) (v : A) :
  snd m = Ok v -> snd (bind m k) = snd (k v).
Proof.
  destruct m as [l r]; simpl; intros ->.
  destruct (k v); reflexivity.
Qed.

Lemma snd_bind_Exn {A B} (m : Exec A) (k : A -> Exec B) (e : error) :
  snd m = Exn e -> snd (bind m k) = Exn e.
Proof.
  destruct m as [l r]; simpl; intros ->; reflexivity.
Qed.

Lemma snd_try_catch_Ok {A} (body : Exec A) (handler : error -> Exec A) (v : A) :
  snd body = Ok v -> snd (try_catch body handler) = Ok v.
Proof.
  destruct body as [l r]; simpl; intros ->; reflexivity.
Qed.

Lemma snd_try_catch_Exn {A} (body : Exec A) (handler : error -> Exec A) (e : error) :
  snd body = Exn e -> snd (try_catch body handler) = snd (handler e).
Proof.
  destruct body as [l r]; simpl; intros ->.
  destruct (handler e); reflexivity.
Qed.

Lemma promise_all_map_Ok {A B} (fn : A -> Exec B) (g : A -> B) (xs : list A) :
  (forall x, In x xs -> snd (fn x) = Ok (g x)) ->
  snd (promise_all_map fn xs) = Ok (map g xs).
Proof.
  induction xs as [|x xs IH]; intros Hfn; simpl.
  - reflexivity.
  - rewrite (snd_bind_Ok _ _ (g x)) by (apply Hfn; now left).
    rewrite (snd_bind_Ok _ _ (map g xs)) by (apply IH; intros; apply Hfn; now right).
    reflexivity.
Qed.

(** ** The batches of [parallelProcess] *)

Lemma ceil_div_0 (l : nat) : ceil_div 0 l = 0.
Proof.
  unfold ceil_div; destruct l as [|l]; [reflexivity|].
  apply Nat.div_small; lia.
Qed.

Lemma ceil_div_step (n l : nat) :
  0 < l -> 0 < n -> ceil_div n l = S (ceil_div (n - l) l).
Proof.
  intros Hl Hn; unfold ceil_div.
  destruct (le_lt_dec l n) as [Hle|Hlt].
  - replace (n + l - 1) with ((n - l + l - 1) + 1 * l) by lia.
    rewrite Nat.div_add by lia. lia.
  - replace (n - l) with 0 by lia.
    rewrite (Nat.div_small (0 + l - 1)) by lia.
    symmetry; apply (Nat.div_unique _ _ _ (n - 1)); lia.
Qed.

Lemma ceil_div_least (n l : nat) :
  0 < l ->
  n <= ceil_div n l * l /\ (forall k, n <= k * l -> ceil_div n l <= k).
Proof.
  intros Hl; unfold ceil_div; split.
  - pose proof (Nat.div_mod_eq (n + l - 1) l) as E.
    pose proof (Nat.mod_upper_bound (n + l - 1) l) as U. nia.
  - intros k Hk. apply Nat.lt_succ_r.
    apply Nat.Div0.div_lt_upper_bound; nia.
Qed.

Lemma slice_firstn {A} (items : list A) (i limit : nat) :
  slice items i (i + limit) = firstn limit (skipn i items).
Proof.
  unfold slice; f_equal; lia.
Qed.

(** With a positive limit the first loop ends, and what it pushes is the
    rest of the list from index [i] on, cut every [limit] items. *)
Lemma batch_loop_chunks {A} (items : list A) (limit : nat) :
  0 < limit ->
  forall fuel i acc,
    length items - i < fuel ->
    exists bs,
      batch_loop fuel items limit i acc = Some (acc ++ bs) /\
      concat bs = skipn i items /\
      Forall (fun b => length b <= limit) bs /\
      length bs = ceil_div (length items - i) limit.
Proof.
  intros Hl; induction fuel as [|fuel IH]; intros i acc Hfuel; [lia|].
  simpl. destruct (Nat.ltb_spec i (length items)) as [Hi|Hi].
  - destruct (IH (i + limit) (acc ++ [slice items i (i + limit)])) as
      (bs & Hrun & Hcat & Hall & Hlen); [lia|].
    exists (slice items i (i + limit) :: bs). repeat split.
    + rewrite Hrun, <- app_assoc; reflexivity.
    + simpl. rewrite Hcat, slice_firstn.
      rewrite (Nat.add_comm i limit), <- skipn_skipn.
      apply firstn_skipn.
    + constructor; [|exact Hall].
      rewrite slice_firstn, length_firstn; lia.
    + simpl. rewrite Hlen.
      rewrite (ceil_div_step (length items - i) limit) by lia.
      do 2 f_equal; lia.
  - exists []. repeat split.
    + rewrite app_nil_r; reflexivity.
    + simpl; symmetry; apply skipn_all2; lia.
    + constructor.
    + replace (length items - i) with 0 by lia.
      rewrite ceil_div_0; reflexivity.
Qed.

(** With limit 0 and a list that is not empty the loop pushes empty batches
    for ever: no amount of fuel lets it end. *)
Lemma batch_loop_limit_0 {A} (items : list A) :
  items <> [] ->
  forall fuel acc, batch_loop fuel items 0 0 acc = None.
Proof.
  intros Hne; induction fuel as [|fuel IH]; intros acc; [reflexivity|].
  simpl. destruct items as [|x items]; [congruence|].
  simpl. apply IH.
Qed.

Lemma batches_run_Ok {A B} (fn : A -> Exec B) (g : A -> B) (bs : list (list A)) :
  (forall x, In x (concat bs) -> snd (fn x) = Ok (g x)) ->
  forall results,
    snd (batches_run fn bs results) = Ok (results ++ map g (concat bs)).
Proof.
  induction bs as [|b bs IH]; intros Hfn results; simpl.
  - rewrite app_nil_r; reflexivity.
  - rewrite (snd_bind_Ok _ _ (map g b)).
    + rewrite IH.
      * rewrite map_app, app_assoc; reflexivity.
      * intros x Hx; apply Hfn; simpl; apply in_or_app; now right.
    + apply promise_all_map_Ok.
      intros x Hx; apply Hfn; simpl; apply in_or_app; now left.
Qed.

Lemma parallelProcess_Ok {A B} (items : list A) (fn : A -> Exec B) (g : A -> B)
    (limit fuel : nat) :
  0 < limit -> length items < fuel ->
  (forall x, In x items -> snd (fn x) = Ok (g x)) ->
  snd (parallelProcess fuel items fn limit) = Ok (map g items).
Proof.
  intros Hl Hfuel Hfn.
  destruct (batch_loop_chunks items limit Hl fuel 0 []) as
    (bs & Hrun & Hcat & _ & _); [lia|].
  unfold parallelProcess. rewrite Hrun. simpl in Hcat |- *.
  rewrite (batches_run_Ok fn g bs) by (rewrite Hcat; exact Hfn).
  rewrite Hcat; reflexivity.
Qed.

(** C7.  For a list of N items and a limit L >= 1, the first loop of
    [parallelProcess] ends (given more fuel than there are items) with
    ceil(N/L) batches, the least number k with N <= k * L, of at most L items
    each, whose concatenation is the list itself; and when the per-item
    operation resolves on every item, [parallelProcess] resolves with the
    list of the outcomes in item order: the result at index i is the outcome
    for the item at index i. *)
Theorem parallelProcess_batches_and_order :
  forall (A B : Type) (items : list A) (fn : A -> Exec B) (g : A -> B)
         (limit fuel : nat),
    0 < limit ->
    length items < fuel ->
    (forall x, In x items -> snd (fn x) = Ok (g x)) ->
    exists batches results,
      batch_loop fuel items limit 0 [] = Some batches /\
      length batches = ceil_div (length items) limit /\
      length items <= length batches * limit /\
      (forall k, length items <= k * limit -> length batches <= k) /\
      Forall (fun b => length b <= limit) batches /\
      concat batches = items /\
      snd (parallelProcess fuel items fn limit) = Ok results /\
      results = map g items /\
      length results = length items /\
      (forall i x, nth_error items i = Some x -> nth_error results i = Some (g x)).
Proof.
  intros A B items fn g limit fuel Hl Hfuel Hfn.
  destruct (batch_loop_chunks items limit Hl fuel 0 []) as
    (bs & Hrun & Hcat & Hall & Hlen); [lia|].
  simpl in Hrun, Hcat. rewrite Nat.sub_0_r in Hlen.
  destruct (ceil_div_least (length items) limit Hl) as [Hup Hleast].
  exists bs, (map g items). repeat split; try assumption.
  - rewrite Hlen; exact Hup.
  - intros k Hk. rewrite Hlen. apply Hleast; exact Hk.
  - apply parallelProcess_Ok; assumption.
  - apply length_map.
  - intros i x Hi. rewrite nth_error_map, Hi; reflexivity.
Qed.

Lemma parallelProcess_batches_and_order_witness :
  exists batches results,
    batch_loop 8 [1; 2; 3; 4; 5; 6; 7] 3 0 [] = Some batches /\
    length batches = ceil_div 7 3 /\
    7 <= length batches * 3 /\
    (forall k, 7 <= k * 3 -> length batches <= k) /\
    Forall (fun b => length b <= 3) batches /\
    concat batches = [1; 2; 3; 4; 5; 6; 7] /\
    snd (parallelProcess 8 [1; 2; 3; 4; 5; 6; 7] (fun x => ret (x * 2)) 3) = Ok results /\
    results = map (fun x => x * 2) [1; 2; 3; 4; 5; 6; 7] /\
    length results = 7 /\
    (forall i x, nth_error [1; 2; 3; 4; 5; 6; 7] i = Some x ->
                 nth_error results i = Some (x * 2)).
Proof.
  apply (parallelProcess_batches_and_order nat nat [1; 2; 3; 4; 5; 6; 7]
           (fun x => ret (x * 2)) (fun x => x * 2) 3 8).
  - lia.
  - simpl; lia.
  - intros x _; reflexivity.
Defined.

(** ** The aggregation *)

Lemma weight_is_weight_Q (c : component) : weight c = JFin (weight_Q c).
Proof.
  unfold weight, weight_Q.
  destruct (isDesignSystem c); [reflexivity|].
  destruct (truthy (isDynamicImport c)); [reflexivity|].
  destruct (truthy (viaComposition c)); reflexivity.
Qed.

Lemma weight_Q_spec (c : component) :
  (weight_Q c == spec_weight (classify c) (compositionFlag c))%Q.
Proof.
  unfold weight_Q, classify, compositionFlag.
  destruct (isDesignSystem c); [reflexivity|].
  destruct (truthy (isDynamicImport c)); [reflexivity|].
  destruct (truthy (viaComposition c)); reflexivity.
Qed.

Lemma weight_Q_bounds (c : component) : (0 <= weight_Q c <= 1)%Q.
Proof.
  unfold weight_Q.
  destruct (isDesignSystem c); [split; discriminate|].
  destruct (truthy (isDynamicImport c)); [split; discriminate|].
  destruct (truthy (viaComposition c)); split; discriminate.
Qed.

(** The accumulator of the [reduce] stays finite and holds the sum. *)
Lemma fold_weights (l : list component) :
  forall a : Q,
    exists q : Q,
      fold_left (fun sum c => js_add sum (weight c)) l (JFin a) = JFin q /\
      (q == a + sumQ (map weight_Q l))%Q.
Proof.
  induction l as [|c l IH]; intros a; simpl.
  - exists a; split; [reflexivity|]. ring.
  - rewrite weight_is_weight_Q; simpl.
    destruct (IH (a + weight_Q c)%Q) as (q & Hq & Hsum).
    exists q; split; [exact Hq|]. rewrite Hsum; ring.
Qed.

Lemma sumQ_weights_bounds (l : list component) :
  (0 <= sumQ (map weight_Q l) <= inject_Z (Z.of_nat (length l)))%Q.
Proof.
  induction l as [|c l IH].
  - simpl; split; discriminate.
  - change (length (c :: l)) with (S (length l)).
    rewrite Nat2Z.inj_succ; unfold Z.succ; rewrite inject_Z_plus.
    simpl sumQ. pose proof (weight_Q_bounds c) as Hc.
    change (inject_Z 1) with 1%Q. lra.
Qed.

Lemma sumQ_map_ext {A} (f g : A -> Q) (l : list A) :
  (forall x, (f x == g x)%Q) -> (sumQ (map f l) == sumQ (map g l))%Q.
Proof.
  intros Hfg; induction l as [|x l IH]; simpl; [reflexivity|].
  rewrite IH, Hfg; reflexivity.
Qed.

Lemma weightedScore_value (l : list component) :
  exists q : Q,
    weightedScore l = JFin q /\ (q == sumQ (map weight_Q l))%Q.
Proof.
  destruct (fold_weights l 0%Q) as (q & Hq & Hsum).
  exists q; split; [exact Hq|]. rewrite Hsum; ring.
Qed.

Lemma maxScore_value (l : list component) :
  maxScore l = JFin (inject_Z (Z.of_nat (length l)) * 1)%Q.
Proof. reflexivity. Qed.

Lemma round2_finite (x : Q) :
  round2 (JFin x) = JFin (inject_Z (Qfloor (x * 100 + (1 # 2))) / 100)%Q.
Proof. reflexivity. Qed.

(** The two-decimal rounding keeps the order of finite numbers. *)
Lemma round2_monotone (x y : Q) :
  (x <= y)%Q -> js_le (round2 (JFin x)) (round2 (JFin y)).
Proof.
  intros Hxy. rewrite !round2_finite. simpl.
  assert (H : (Qfloor (x * 100 + (1 # 2)) <= Qfloor (y * 100 + (1 # 2)))%Z).
  { apply Qfloor_resp_le. lra. }
  apply Qmult_le_compat_r; [|discriminate].
  rewrite <- Zle_Qle; exact H.
Qed.

(** C5.  The weight of a record depends on its classification and its
    composition flag only, by the table 1.0 / 0.5 / 0.875 / 0.75; the local
    [weightedScore] is the sum of these weights and the local [maxScore] is
    the number of records times 1.0. *)
Theorem weights_follow_classification :
  forall records : list component,
    (forall c,
        exists q, weight c = JFin q /\
                  (q == spec_weight (classify c) (compositionFlag c))%Q) /\
    (exists q,
        weightedScore records = JFin q /\
        (q == sumQ (map (fun c => spec_weight (classify c) (compositionFlag c))
                        records))%Q) /\
    (exists q,
        maxScore records = JFin q /\
        (q == inject_Z (Z.of_nat (length records)) * 1)%Q).
Proof.
  intros records. repeat split.
  - intros c. exists (weight_Q c); split.
    + apply weight_is_weight_Q.
    + apply weight_Q_spec.
  - destruct (weightedScore_value records) as (q & Hq & Hsum).
    exists q; split; [exact Hq|].
    rewrite Hsum. apply sumQ_map_ext. intros c; apply weight_Q_spec.
  - eexists; split; [apply maxScore_value|reflexivity].
Qed.

(** C8.  In the summary of every record list the reported [weightedScore]
    is at most the reported [maxScore], both are finite, and every weight
    lies between 0 and 1. *)
Theorem reported_weightedScore_le_maxScore :
  forall components : list (list component),
    let s := Report.summary (aggregate components) in
    js_le (Summary.weightedScore s) (Summary.maxScore s) /\
    js_is_finite (Summary.weightedScore s) = true /\
    js_is_finite (Summary.maxScore s) = true /\
    (forall c, js_le (JFin 0%Q) (weight c) /\ js_le (weight c) (JFin 1%Q)).
Proof.
  intros components s; subst s; simpl.
  set (flat := concat components).
  destruct (weightedScore_value flat) as (q & Hq & Hsum).
  rewrite Hq, maxScore_value.
  repeat split.
  - apply round2_monotone. rewrite Hsum.
    pose proof (sumQ_weights_bounds flat). lra.
  - rewrite weight_is_weight_Q; simpl. apply weight_Q_bounds.
  - rewrite weight_is_weight_Q; simpl. apply weight_Q_bounds.
Qed.

(** ** The scan as a whole *)

Lemma snd_bind_inv {A B} (m : Exec A) (k : A -> Exec B) (r : B) :
  snd (bind m k) = Ok r -> exists v, snd m = Ok v /\ snd (k v) = Ok r.
Proof.
  destruct m as [l [v|e|]]; simpl; try discriminate.
  intros H. exists v; split; [reflexivity|].
  destruct (k v); exact H.
Qed.

(** Whatever [scanRepository] resolves with was built by [aggregate]. *)
Lemma scanRepository_Ok_aggregate (w : world) (repoPath : string)
    (config : scan_config) (incremental : bool) (r : Report.t) :
  snd (scanRepository w repoPath config incremental) = Ok r ->
  exists components, r = aggregate components.
Proof.
  unfold scanRepository; intros H.
  apply snd_bind_inv in H; destruct H as (tsConfig & _ & H).
  apply snd_bind_inv in H; destruct H as (files & _ & H).
  apply snd_bind_inv in H; destruct H as (components & _ & H).
  exists components. simpl in H. congruence.
Qed.

Lemma filter_partition_length {A} (p : A -> bool) (l : list A) :
  length (filter p l) + length (filter (fun x => negb (p x)) l) = length l.
Proof.
  induction l as [|x l IH]; simpl; [reflexivity|].
  destruct (p x); simpl; lia.
Qed.

Lemma classify_cases (c : component) :
  (isDesignSystem c = true /\ classify c = design_system_import) \/
  (isDesignSystem c = false /\ classify c = dynamic_import_reference) \/
  (isDesignSystem c = false /\ classify c = custom_component).
Proof.
  unfold classify. destruct (isDesignSystem c); [now left|].
  destruct (truthy (isDynamicImport c)); [right; now left | right; now right].
Qed.

Lemma count_not_design_system (l : list component) :
  length (filter (fun c => negb (isDesignSystem c)) l) =
  count_class custom_component l + count_class dynamic_import_reference l.
Proof.
  unfold count_class; induction l as [|c l IH]; simpl; [reflexivity|].
  destruct (classify_cases c) as [[-> ->]|[[-> ->]|[-> ->]]]; simpl; lia.
Qed.

(** C9.  In every report [scanRepository] resolves with, the two counts of
    the summary add up to [totalComponents]; [customComponents] counts the
    records whose [isDesignSystem] is false, that is the custom-component
    records together with the dynamic-import-reference records. *)
Theorem summary_counts_partition :
  forall (w : world) (repoPath : string) (config : scan_config)
         (incremental : bool) (r : Report.t),
    snd (scanRepository w repoPath config incremental) = Ok r ->
    let s := Report.summary r in
    Summary.designSystemComponents s + Summary.customComponents s
      = Summary.totalComponents s /\
    Summary.totalComponents s = length (Report.components r) /\
    Summary.designSystemComponents s
      = count_class design_system_import (Report.components r) /\
    Summary.customComponents s
      = count_class custom_component (Report.components r)
        + count_class dynamic_import_reference (Report.components r) /\
    (forall c, In c (Report.components r) ->
               classify c = dynamic_import_reference ->
               In c (filter (fun c => negb (isDesignSystem c)) (Report.components r))).
Proof.
  intros w repoPath config incremental r H s; subst s.
  destruct (scanRepository_Ok_aggregate _ _ _ _ _ H) as (components & ->).
  simpl. set (flat := concat components). repeat split.
  - apply filter_partition_length.
  - unfold count_class. f_equal. apply filter_ext.
    intros c; unfold classify. destruct (isDesignSystem c); [reflexivity|].
    destruct (truthy (isDynamicImport c)); reflexivity.
  - apply count_not_design_system.
  - intros c Hin Hclass. apply filter_In; split; [exact Hin|].
    unfold classify in Hclass. destruct (isDesignSystem c); [discriminate|reflexivity].
Qed.

Lemma summary_counts_partition_witness :
  exists r : Report.t,
    snd (scanRepository Examples.three_files "/repo" DEFAULT_CONFIG true) = Ok r /\
    let s := Report.summary r in
    Summary.designSystemComponents s + Summary.customComponents s
      = Summary.totalComponents s /\
    Summary.totalComponents s = length (Report.components r) /\
    Summary.designSystemComponents s
      = count_class design_system_import (Report.components r) /\
    Summary.customComponents s
      = count_class custom_component (Report.components r)
        + count_class dynamic_import_reference (Report.components r) /\
    (forall c, In c (Report.components r) ->
               classify c = dynamic_import_reference ->
               In c (filter (fun c => negb (isDesignSystem c)) (Report.components r))).
Proof.
  eexists; split.
  - vm_compute; reflexivity.
  - apply (summary_counts_partition Examples.three_files "/repo" DEFAULT_CONFIG true).
    vm_compute; reflexivity.
Defined.

(** *** No record at all *)

Lemma aggregate_no_records (components : list (list component)) :
  concat components = [] ->
  let s := Report.summary (aggregate components) in
  Summary.totalComponents s = 0 /\
  Summary.maxScore s = round2 (JFin (0 * 1)%Q) /\
  Summary.adoptionPercentage s = JNaN.
Proof.
  intros H; simpl. unfold adoptionPercentage, weightedScore, maxScore.
  rewrite H. repeat split.
Qed.

(** C1 on the code.  Scanning a repository without files resolves, the
    summary has [totalComponents = 0], and its [adoptionPercentage] is the
    NaN that 0 / 0 gives: no value was chosen for the case. *)
Theorem scanRepository_empty_repo_percentage_NaN :
  exists r : Report.t,
    snd (scanRepository Examples.empty_repo "/repo" DEFAULT_CONFIG false) = Ok r /\
    Report.components r = [] /\
    Summary.totalComponents (Report.summary r) = 0 /\
    Summary.adoptionPercentage (Report.summary r) = JNaN /\
    js_is_finite (Summary.adoptionPercentage (Report.summary r)) = false.
Proof.
  eexists; split; [vm_compute; reflexivity|].
  repeat split.
Qed.

(** *** Change detection *)

(** Without [.git] the query warns and resolves with no file. *)
Lemma getChangedFiles_no_metadata (w : world) (repoPath : string) (e : error) :
  fs_access w (path_join w repoPath ".git") = Rejected e ->
  getChangedFiles w repoPath = ([not_a_git_repository], Ok []).
Proof.
  intros H; unfold getChangedFiles. rewrite H; reflexivity.
Qed.

(** With [.git] and a failing [git diff] the query rejects, and nothing is
    logged: the [catch] clause does not run. *)
Lemma getChangedFiles_query_error (w : world) (repoPath : string) (e : error) :
  fs_access w (path_join w repoPath ".git") = Resolved tt ->
  git_diff_name_only_HEAD w repoPath = Rejected e ->
  getChangedFiles w repoPath = ([], Exn e).
Proof.
  intros Ha Hd; unfold getChangedFiles. rewrite Ha, Hd; reflexivity.
Qed.

Lemma loadTsConfig_resolves (w : world) (tsConfigPath : string) :
  exists tsConfig, snd (loadTsConfig w tsConfigPath) = Ok tsConfig.
Proof.
  unfold loadTsConfig. destruct (ts_parseConfig w tsConfigPath) as [c|e]; simpl.
  - exists c; reflexivity.
  - eexists; reflexivity.
Qed.

(** The rejection of the query ends an incremental scan. *)
Lemma scanRepository_query_error (w : world) (repoPath : string)
    (config : scan_config) (e : error) :
  fs_access w (path_join w repoPath ".git") = Resolved tt ->
  git_diff_name_only_HEAD w repoPath = Rejected e ->
  snd (scanRepository w repoPath config true) = Exn e.
Proof.
  intros Ha Hd; unfold scanRepository.
  destruct (loadTsConfig_resolves w (path_join w repoPath "tsconfig.json"))
    as (tsConfig & Hts).
  rewrite (snd_bind_Ok _ _ tsConfig Hts).
  apply snd_bind_Exn. apply snd_bind_Exn.
  rewrite (getChangedFiles_query_error w repoPath e Ha Hd); reflexivity.
Qed.

(** C2 on the code.  Where [.git] is missing the query logs the warning and
    resolves with the empty list, and the incremental scan goes on with the
    full file set.  Where [.git] is there and [git diff] fails, the query
    rejects with that error without logging anything, and the incremental
    scan rejects with it. *)
Theorem getChangedFiles_git_diff_error_propagates :
  getChangedFiles Examples.no_git "/repo" = ([not_a_git_repository], Ok []) /\
  (exists r, snd (scanRepository Examples.no_git "/repo" DEFAULT_CONFIG true) = Ok r /\
             Summary.totalComponents (Report.summary r) = 2) /\
  getChangedFiles Examples.git_diff_fails "/repo"
    = ([], Exn "Command failed: git diff --name-only HEAD") /\
  snd (scanRepository Examples.git_diff_fails "/repo" DEFAULT_CONFIG true)
    = Exn "Command failed: git diff --name-only HEAD".
Proof.
  split; [|split; [|split]].
  - apply (getChangedFiles_no_metadata _ _ "ENOENT: no such file or directory").
    reflexivity.
  - eexists; split; vm_compute; reflexivity.
  - apply getChangedFiles_query_error; reflexivity.
  - apply scanRepository_query_error; reflexivity.
Qed.

(** ** The visitors *)

Lemma cbind_Normal_inv {A B} (m : completion A) (k : A -> completion B) (r : B) :
  cbind m k = Normal r -> exists v, m = Normal v /\ k v = Normal r.
Proof.
  destruct m as [v|e]; simpl; [|discriminate].
  intros H; exists v; split; [reflexivity|exact H].
Qed.

Section Walk.

Variables (w : world) (filePath : string) (tsConfig : ts_config)
          (config : scan_config).

Lemma visit_all_app (pre post : list node) (st : visitor_state) :
  visit_all w filePath tsConfig config (pre ++ post) st =
  (st' <~ visit_all w filePath tsConfig config pre st ;;
   visit_all w filePath tsConfig config post st').
Proof.
  revert st; induction pre as [|n pre IH]; intros st; simpl; [reflexivity|].
  destruct (visit w filePath tsConfig config n st) as [st1|e]; simpl;
    [apply IH|reflexivity].
Qed.

Lemma has_Component_decorator_find (decorators : option (list decorator)) :
  has_Component_decorator decorators = true ->
  exists callee arguments,
    match decorators with
    | None => None
    | Some ds => find is_Component_decorator ds
    end = Some (DecoratorCall callee arguments).
Proof.
  destruct decorators as [ds|]; simpl; [|discriminate].
  induction ds as [|d ds IH]; simpl; [discriminate|].
  destruct (is_Component_decorator d) eqn:Hd; simpl.
  - intros _. destruct d as [c args|]; [|discriminate]. now exists c, args.
  - exact IH.
Qed.

(** What the class handler pushes when it returns. *)
Lemma visit_ClassDeclaration_record (id_name : option string)
    (decorators : option (list decorator)) (st st' : visitor_state) :
  has_Component_decorator decorators = true ->
  visit_ClassDeclaration filePath id_name decorators st = Normal st' ->
  exists c,
    st' = push st c /\
    id_name = Some (name c) /\
    isDesignSystem c = false /\
    source c = JString "custom" /\
    isDynamicImport c = None /\
    viaComposition c = Some (usesDesignSystem st).
Proof.
  intros Hdec Hrun.
  destruct (has_Component_decorator_find decorators Hdec) as (cal & args & Hfind).
  unfold visit_ClassDeclaration in Hrun. rewrite Hfind in Hrun.
  do 6 (apply cbind_Normal_inv in Hrun; destruct Hrun as (? & _ & Hrun)).
  apply cbind_Normal_inv in Hrun; destruct Hrun as (n & Hn & Hrun).
  destruct id_name as [n'|]; [|discriminate].
  injection Hn as ->. injection Hrun as <-.
  eexists; repeat split.
Qed.

Lemma visit_step (n : node) (st st' : visitor_state) :
  visit w filePath tsConfig config n st = Normal st' ->
  usesDesignSystem st' =
    usesDesignSystem st || qualifying_import w filePath tsConfig config n /\
  exists new, components st' = components st ++ new.
Proof.
  destruct n as [src specs|id decos|cal args|]; simpl.
  - unfold visit_ImportDeclaration.
    destruct (is_design_system_source config (resolveImport w src filePath tsConfig));
      intros H; injection H as <-; simpl.
    + split; [now rewrite orb_true_r|]. eexists; reflexivity.
    + split; [now rewrite orb_false_r|]. exists []; now rewrite app_nil_r.
  - rewrite orb_false_r. intros H.
    destruct (has_Component_decorator decos) eqn:Hdec.
    + destruct (visit_ClassDeclaration_record _ _ _ _ Hdec H) as (c & -> & _).
      simpl. split; [reflexivity|]. eexists; reflexivity.
    + unfold visit_ClassDeclaration in H.
      assert (Hnone : match decos with
                      | None => None
                      | Some ds => find is_Component_decorator ds
                      end = None).
      { destruct decos as [ds|]; [|reflexivity]. simpl in Hdec.
        destruct (find is_Component_decorator ds) as [d|] eqn:Hf; [|reflexivity].
        apply find_some in Hf. destruct Hf as [Hin Hd].
        assert (existsb is_Component_decorator ds = true)
          by (apply existsb_exists; eauto).
        congruence. }
      rewrite Hnone in H. injection H as <-.
      split; [reflexivity|]. exists []; now rewrite app_nil_r.
  - rewrite orb_false_r. unfold visit_CallExpression.
    destruct (name_is (callee_name_of cal) "loadChildren").
    + destruct args as [|a args]; [discriminate|].
      intros H; injection H as <-; simpl.
      split; [reflexivity|]. eexists; reflexivity.
    + intros H; injection H as <-.
      split; [reflexivity|]. exists []; now rewrite app_nil_r.
  - rewrite orb_false_r. intros H; injection H as <-.
    split; [reflexivity|]. exists []; now rewrite app_nil_r.
Qed.

(** The accumulator after a walk: set as soon as one import qualified.
    The records only grow. *)
Lemma visit_all_steps (nodes : list node) :
  forall st st',
    visit_all w filePath tsConfig config nodes st = Normal st' ->
    usesDesignSystem st' =
      usesDesignSystem st
      || existsb (qualifying_import w filePath tsConfig config) nodes /\
    exists new, components st' = components st ++ new.
Proof.
  induction nodes as [|n nodes IH]; intros st st' H; simpl in H |- *.
  - injection H as <-. split; [now rewrite orb_false_r|].
    exists []; now rewrite app_nil_r.
  - apply cbind_Normal_inv in H. destruct H as (st1 & H1 & H2).
    destruct (visit_step _ _ _ H1) as (Hu1 & new1 & Hc1).
    destruct (IH _ _ H2) as (Hu2 & new2 & Hc2).
    split.
    + rewrite Hu2, Hu1, orb_assoc; reflexivity.
    + exists (new1 ++ new2). rewrite Hc2, Hc1, app_assoc; reflexivity.
Qed.

End Walk.

Lemma analyzeFile_traversed (w : world) (filePath content : string)
    (tsConfig : ts_config) (config : scan_config) (tree : ast)
    (final : visitor_state) :
  fs_readFile w filePath = Resolved content ->
  babel_parse w content = Normal tree ->
  traverse w filePath tsConfig config tree = Normal final ->
  analyzeFile w filePath tsConfig config = ([], Ok (components final)).
Proof.
  intros Hr Hp Ht; unfold analyzeFile. rewrite Hr; simpl.
  rewrite Hp; simpl. rewrite Ht; reflexivity.
Qed.




(** The two files of the specification's example, under the default
    configuration and with a resolver that leaves [@ui-kit/button] as it
    is: the import first, then the class; and the class first. *)
Example import_before_class_flag_true :
  exists c1 c2,
    snd (analyzeFile Examples.three_files "/repo/a.ts" Examples.no_tsconfig
           DEFAULT_CONFIG) = Ok [c1; c2] /\
    name c2 = "Card" /\ viaComposition c2 = Some true /\
    js_same (weight c2) (JFin (875 # 1000)%Q).
Proof.
  do 2 eexists; split; [vm_compute; reflexivity|].
  repeat split.
Qed.

Example import_after_class_flag_false :
  exists c1 c2,
    snd (analyzeFile Examples.three_files "/repo/c.ts" Examples.no_tsconfig
           DEFAULT_CONFIG) = Ok [c1; c2] /\
    name c1 = "Card" /\ viaComposition c1 = Some false /\
    js_same (weight c1) (JFin (75 # 100)%Q).
Proof.
  do 2 eexists; split; [vm_compute; reflexivity|].
  repeat split.
Qed.

(** *** A class without a template field *)

Lemma find_property_no_template (props : list property) (found : option property) :
  no_template_field props = true ->
  find_property is_template_key props = Normal found ->
  found = None.
Proof.
  induction props as [|p props IH]; simpl; intros Hno Hfind.
  - congruence.
  - apply andb_prop in Hno. destruct Hno as [Hp Hrest].
    destruct p as [k v|k|]; simpl in Hfind; try discriminate;
      destruct (is_template_key k); try discriminate; apply IH; assumption.
Qed.

(** Whenever the class handler emits a record for a payload without a
    template field, the record says [external: 1]. *)
Lemma visit_ClassDeclaration_no_template (filePath : string)
    (id_name : option string) (ds : list decorator) (callee : callee_node)
    (props : list property) (rest : list expression) (st st' : visitor_state) :
  find is_Component_decorator ds
    = Some (DecoratorCall callee (ObjectExpression props :: rest)) ->
  no_template_field props = true ->
  visit_ClassDeclaration filePath id_name (Some ds) st = Normal st' ->
  exists c,
    st' = push st c /\ usage c = Some {| inline := 0; external := 1 |}.
Proof.
  intros Hfind Hno Hrun. unfold visit_ClassDeclaration in Hrun.
  rewrite Hfind in Hrun. simpl in Hrun.
  do 2 (apply cbind_Normal_inv in Hrun; destruct Hrun as (? & _ & Hrun)).
  apply cbind_Normal_inv in Hrun; destruct Hrun as (templateProp & Htp & Hrun).
  apply (find_property_no_template _ _ Hno) in Htp. subst templateProp.
  simpl in Hrun.
  apply cbind_Normal_inv in Hrun; destruct Hrun as (n & _ & Hrun).
  injection Hrun as <-. eexists; split; reflexivity.
Qed.

(** C3 on the code.  The file
    [@Component({ selector: 'app-bare' }) class Bare {}] has neither a
    [template] nor a [templateUrl] field; its only record has
    [usage = { inline: 0, external: 1 }]. *)
Theorem class_without_template_is_external :
  exists c,
    analyzeFile Examples.bare_class_file "/repo/bare.ts" Examples.no_tsconfig
      DEFAULT_CONFIG = ([], Ok [c]) /\
    name c = "Bare" /\
    classify c = custom_component /\
    usage c = Some {| inline := 0; external := 1 |}.
Proof.
  eexists; split; [vm_compute; reflexivity|].
  repeat split.
Qed.

(** *** Arguments read without a guard *)

Lemma visit_all_throws (w : world) (filePath : string) (tsConfig : ts_config)
    (config : scan_config) (n : node) :
  (forall st, exists e, visit w filePath tsConfig config n st = Throw e) ->
  forall pre post st,
    exists e,
      visit_all w filePath tsConfig config (pre ++ n :: post) st = Throw e.
Proof.
  intros Hn pre post st. rewrite visit_all_app.
  destruct (visit_all w filePath tsConfig config pre st) as [st1|e]; simpl.
  - destruct (Hn st1) as (e & ->). exists e; reflexivity.
  - exists e; reflexivity.
Qed.

(** The class handler throws on a component annotation without argument. *)
Lemma visit_annotation_without_argument (w : world) (filePath : string)
    (tsConfig : ts_config) (config : scan_config) (id_name : option string)
    (ds : list decorator) (callee : callee_node) (st : visitor_state) :
  find is_Component_decorator ds = Some (DecoratorCall callee []) ->
  visit w filePath tsConfig config (ClassDeclaration id_name (Some ds)) st
    = Throw (TypeError "undefined" "properties").
Proof.
  intros Hfind; simpl; unfold visit_ClassDeclaration.
  rewrite Hfind; reflexivity.
Qed.

(** The call handler throws on [loadChildren()]. *)
Lemma visit_loadChildren_without_argument (w : world) (filePath : string)
    (tsConfig : ts_config) (config : scan_config) (st : visitor_state) :
  visit w filePath tsConfig config
    (CallExpression (Identifier "loadChildren") []) st
    = Throw (TypeError "undefined" "value").
Proof. reflexivity. Qed.

(** An exception in the walk costs the file all its records. *)
Lemma analyzeFile_walk_throws (w : world) (filePath content : string)
    (tsConfig : ts_config) (config : scan_config) (tree : ast) (e : error) :
  fs_readFile w filePath = Resolved content ->
  babel_parse w content = Normal tree ->
  traverse w filePath tsConfig config tree = Throw e ->
  analyzeFile w filePath tsConfig config
    = ([("Failed to analyze " ++ filePath ++ ": " ++ e)%string], Ok []).
Proof.
  intros Hr Hp Ht; unfold analyzeFile. rewrite Hr; simpl.
  rewrite Hp; simpl. rewrite Ht; reflexivity.
Qed.

(** Any file in which [loadChildren()] is called without argument, or a class
    carries a component annotation without argument, yields no record. *)
Lemma analyzeFile_unguarded_node (w : world) (filePath content : string)
    (tsConfig : ts_config) (config : scan_config) (tree : ast)
    (pre post : list node) (n : node) :
  fs_readFile w filePath = Resolved content ->
  babel_parse w content = Normal tree ->
  preorder tree = pre ++ n :: post ->
  (n = CallExpression (Identifier "loadChildren") [] \/
   exists id_name ds callee,
     n = ClassDeclaration id_name (Some ds) /\
     find is_Component_decorator ds = Some (DecoratorCall callee [])) ->
  snd (analyzeFile w filePath tsConfig config) = Ok [].
Proof.
  intros Hr Hp Hpre Hn.
  destruct (visit_all_throws w filePath tsConfig config n) with
    (pre := pre) (post := post) (st := initial_state) as (e & He).
  - intros st. destruct Hn as [->|(id_name & ds & cal & -> & Hfind)].
    + eexists; apply visit_loadChildren_without_argument.
    + eexists; eapply visit_annotation_without_argument; exact Hfind.
  - rewrite (analyzeFile_walk_throws w filePath content tsConfig config tree e);
      [reflexivity|assumption|assumption|].
    unfold traverse; rewrite Hpre; exact He.
Qed.

(** C10.  There is a file that is read and parsed, in which a design-system
    import comes first and has its record collected, and whose analysis
    nevertheless resolves with the empty list, after one warning: once with a
    component annotation applied without argument, once with [loadChildren]
    called without argument.  In both the handler throws a TypeError from
    the read of the first argument. *)
Theorem unguarded_first_argument_discards_records :
  (exists (w : world) (filePath content : string) (tree : ast)
          (pre post : list node) (collected : visitor_state) (line : string),
      fs_readFile w filePath = Resolved content /\
      babel_parse w content = Normal tree /\
      preorder tree = pre ++ Examples.class_Empty :: post /\
      visit_all w filePath Examples.no_tsconfig DEFAULT_CONFIG pre initial_state
        = Normal collected /\
      length (components collected) = 1 /\
      Forall (fun c => classify c = design_system_import) (components collected) /\
      visit w filePath Examples.no_tsconfig DEFAULT_CONFIG Examples.class_Empty
        collected = Throw (TypeError "undefined" "properties") /\
      analyzeFile w filePath Examples.no_tsconfig DEFAULT_CONFIG = ([line], Ok []))
  /\
  (exists (w : world) (filePath content : string) (tree : ast)
          (pre post : list node) (collected : visitor_state) (line : string),
      fs_readFile w filePath = Resolved content /\
      babel_parse w content = Normal tree /\
      preorder tree = pre ++ Examples.call_lazy_no_argument :: post /\
      visit_all w filePath Examples.no_tsconfig DEFAULT_CONFIG pre initial_state
        = Normal collected /\
      length (components collected) = 1 /\
      Forall (fun c => classify c = design_system_import) (components collected) /\
      visit w filePath Examples.no_tsconfig DEFAULT_CONFIG
        Examples.call_lazy_no_argument collected
        = Throw (TypeError "undefined" "value") /\
      analyzeFile w filePath Examples.no_tsconfig DEFAULT_CONFIG = ([line], Ok [])).
Proof.
  split.
  - exists Examples.empty_annotation_file, "/repo/empty.ts",
      "import-then-empty-annotation", Examples.import_then_empty_annotation,
      Examples.entered_before_second_statement.
    do 3 eexists.
    do 4 evaluated_conjunct.
    evaluated_conjunct.
    split; [repeat constructor|].
    evaluated_conjunct. vm_compute; reflexivity.
  - exists Examples.empty_call_file, "/repo/routes.ts",
      "import-then-empty-call", Examples.import_then_empty_call,
      (Examples.entered_before_second_statement ++ [OtherNode]).
    do 3 eexists.
    do 4 evaluated_conjunct.
    evaluated_conjunct.
    split; [repeat constructor|].
    evaluated_conjunct. vm_compute; reflexivity.
Qed.

(** ** Failures stay inside their file *)

Lemma analyzeFile_resolves (w : world) (filePath : string) (tsConfig : ts_config)
    (config : scan_config) :
  exists records, snd (analyzeFile w filePath tsConfig config) = Ok records.
Proof.
  unfold analyzeFile.
  destruct (fs_readFile w filePath) as [content|e]; simpl; [|eexists; reflexivity].
  destruct (babel_parse w content) as [tree|e]; simpl; [|eexists; reflexivity].
  destruct (traverse w filePath tsConfig config tree) as [st|e]; simpl;
    eexists; reflexivity.
Qed.

Lemma analyzeFile_resolved_list (w : world) (filePath : string)
    (tsConfig : ts_config) (config : scan_config) :
  snd (analyzeFile w filePath tsConfig config)
    = Ok (resolved_list (analyzeFile w filePath tsConfig config)).
Proof.
  unfold resolved_list.
  destruct (analyzeFile_resolves w filePath tsConfig config) as (records & ->).
  reflexivity.
Qed.

Lemma analyzeFile_failing_file (w : world) (filePath : string)
    (tsConfig : ts_config) (config : scan_config) :
  reads_and_parses w filePath = false ->
  snd (analyzeFile w filePath tsConfig config) = Ok [].
Proof.
  unfold reads_and_parses, analyzeFile.
  destruct (fs_readFile w filePath) as [content|e]; simpl; [|reflexivity].
  destruct (babel_parse w content) as [tree|e]; simpl; [discriminate|reflexivity].
Qed.

Lemma concat_map_filter_nonempty {A B} (g : A -> list B) (keep : A -> bool)
    (l : list A) :
  (forall x, keep x = false -> g x = []) ->
  concat (map g l) = concat (map g (filter keep l)).
Proof.
  intros Hg; induction l as [|x l IH]; simpl; [reflexivity|].
  destruct (keep x) eqn:Hx; simpl.
  - rewrite IH; reflexivity.
  - rewrite (Hg x Hx); exact IH.
Qed.

Lemma aggregate_concat (a b : list (list component)) :
  concat a = concat b -> aggregate a = aggregate b.
Proof.
  intros H; unfold aggregate; rewrite H; reflexivity.
Qed.

(** C6.  The analysis of a file that cannot be read or does not parse
    resolves with the empty list, and the analysis of any file resolves.
    [parallelProcess] over the files therefore resolves with the per-file
    lists, each one the list its own file's analysis resolves with; their
    concatenation, and the report aggregated from them, are the ones of the
    files that were read and parsed. *)
Theorem failing_file_contributes_nothing :
  forall (w : world) (tsConfig : ts_config) (config : scan_config)
         (files : list string),
    let fn := fun file => analyzeFile w file tsConfig config in
    let succeeded := filter (reads_and_parses w) files in
    (forall f, reads_and_parses w f = false -> snd (fn f) = Ok []) /\
    (forall f, exists records, snd (fn f) = Ok records) /\
    exists per_file,
      snd (parallelProcess (S (length files)) files fn default_limit) = Ok per_file /\
      per_file = map (fun f => resolved_list (fn f)) files /\
      Report.components (aggregate per_file)
        = concat (map (fun f => resolved_list (fn f)) succeeded) /\
      aggregate per_file
        = aggregate (map (fun f => resolved_list (fn f)) succeeded).
Proof.
  intros w tsConfig config files fn succeeded.
  assert (Hcat : concat (map (fun f => resolved_list (fn f)) files)
                 = concat (map (fun f => resolved_list (fn f)) succeeded)).
  { apply concat_map_filter_nonempty. intros f Hf.
    unfold resolved_list, fn.
    rewrite (analyzeFile_failing_file w f tsConfig config Hf); reflexivity. }
  split; [|split].
  - intros f Hf. apply analyzeFile_failing_file; exact Hf.
  - intros f. apply analyzeFile_resolves.
  - exists (map (fun f => resolved_list (fn f)) files). repeat split.
    + apply parallelProcess_Ok.
      * unfold default_limit; lia.
      * lia.
      * intros f _. apply analyzeFile_resolved_list.
    + exact Hcat.
    + apply aggregate_concat; exact Hcat.
Qed.

(** A repository with a file that does not parse is reported as the same
    repository without that file: only the log differs. *)
Example unparsable_file_leaves_report_unchanged :
  snd (scanRepository Examples.three_files "/repo" DEFAULT_CONFIG false)
  = snd (scanRepository Examples.two_files "/repo" DEFAULT_CONFIG false) /\
  reads_and_parses Examples.three_files "/repo/b.ts" = false.
Proof. split; vm_compute; reflexivity. Qed.

(** Every scan in full mode resolves, whatever the files do, as long as the
    file listing itself resolves. *)
Lemma scanRepository_full_resolves (w : world) (repoPath : string)
    (config : scan_config) (files : list string) :
  glob_ts w repoPath (ignore config) = Resolved files ->
  exists r, snd (scanRepository w repoPath config false) = Ok r.
Proof.
  intros Hglob; unfold scanRepository.
  destruct (loadTsConfig_resolves w (path_join w repoPath "tsconfig.json"))
    as (tsConfig & Hts).
  rewrite (snd_bind_Ok _ _ tsConfig Hts).
  rewrite (snd_bind_Ok _ _ files)
    by (unfold getTypeScriptFiles, adopt; simpl; rewrite Hglob; reflexivity).
  rewrite (snd_bind_Ok _ _
             (map (fun f => resolved_list (analyzeFile w f tsConfig config)) files)).
  - eexists; reflexivity.
  - apply parallelProcess_Ok.
    + unfold default_limit; lia.
    + lia.
    + intros f _. apply analyzeFile_resolved_list.
Qed.

(** * Further properties of scanner.js *)

(** ** Change detection and the choice of the files *)

Lemma snd_bind {A B} (m : Exec A) (k : A -> Exec B) :
  snd (bind m k) =
  match snd m with
  | Ok v => snd (k v)
  | Exn e => Exn e
  | OutOfFuel => OutOfFuel
  end.
Proof.
  destruct m as [l [v|e|]]; simpl; try reflexivity.
  destruct (k v); reflexivity.
Qed.

Lemma trimStart_all_white_space (s : string) :
  all_white_space s = true -> trimStart s = EmptyString.
Proof.
  induction s as [|c s IH]; simpl; [reflexivity|].
  intros H; apply andb_prop in H; destruct H as [Hc Hs].
  rewrite Hc; apply IH; exact Hs.
Qed.

Lemma trim_all_white_space (s : string) :
  all_white_space s = true -> trim s = EmptyString.
Proof.
  intros H; unfold trim. rewrite (trimStart_all_white_space s H); reflexivity.
Qed.

Lemma split_pieces_without_separator (sep : ascii) (s : string) :
  Forall (fun piece => has_char sep piece = false) (split sep s).
Proof.
  induction s as [|c s IH]; simpl.
  - repeat constructor.
  - destruct (Ascii.eqb c sep) eqn:Hc.
    + constructor; [reflexivity|exact IH].
    + destruct (split sep s) as [|piece pieces].
      * constructor; [simpl; rewrite Hc; reflexivity|constructor].
      * inversion IH as [|? ? Hpiece Hpieces]; subst.
        constructor; [simpl; rewrite Hc; exact Hpiece|exact Hpieces].
Qed.

(** X1.  When [.git] is there and [git diff] succeeds, [getChangedFiles]
    resolves without a warning; every path it resolves with ends in [.ts]
    and holds no line break; an output of white space only (a clean working
    tree) gives the empty list. *)
Theorem getChangedFiles_resolved_paths :
  forall (w : world) (repoPath stdout : string),
    fs_access w (path_join w repoPath ".git") = Resolved tt ->
    git_diff_name_only_HEAD w repoPath = Resolved stdout ->
    exists files,
      getChangedFiles w repoPath = ([], Ok files) /\
      Forall (fun file => endsWith file ".ts" = true /\
                          has_char newline file = false) files /\
      (all_white_space stdout = true -> files = []).
Proof.
  intros w repoPath stdout Ha Hd.
  exists (filter (fun file => endsWith file ".ts") (split newline (trim stdout))).
  split; [|split].
  - unfold getChangedFiles. rewrite Ha, Hd; reflexivity.
  - apply Forall_forall. intros file Hin.
    apply filter_In in Hin. destruct Hin as [Hin Hts].
    split; [exact Hts|].
    pose proof (split_pieces_without_separator newline (trim stdout)) as Hall.
    rewrite Forall_forall in Hall. apply Hall; exact Hin.
  - intros Hws. rewrite (trim_all_white_space stdout Hws). reflexivity.
Qed.

Lemma getChangedFiles_resolved_paths_witness :
  exists files,
    getChangedFiles CliExamples.changed_repo "/repo" = ([], Ok files) /\
    Forall (fun file => endsWith file ".ts" = true /\
                        has_char newline file = false) files /\
    (all_white_space CliExamples.git_output = true -> files = []).
Proof.
  apply (getChangedFiles_resolved_paths CliExamples.changed_repo "/repo");
    reflexivity.
Defined.

(** X2.  Whenever [getChangedFiles] resolves with the empty list, for a
    clean working tree as for a missing [.git], the incremental scan settles
    exactly as the full scan does. *)
Theorem incremental_scan_falls_back_to_full_scan :
  forall (w : world) (repoPath : string) (config : scan_config),
    snd (getChangedFiles w repoPath) = Ok [] ->
    snd (scanRepository w repoPath config true)
    = snd (scanRepository w repoPath config false).
Proof.
  intros w repoPath config H. unfold scanRepository.
  rewrite !snd_bind.
  destruct (snd (loadTsConfig w (path_join w repoPath "tsconfig.json")))
    as [tsConfig|e|]; try reflexivity.
  rewrite !snd_bind. rewrite H. simpl Nat.eqb. cbv iota.
  reflexivity.
Qed.

Lemma incremental_scan_falls_back_to_full_scan_witness :
  snd (scanRepository Examples.no_git "/repo" DEFAULT_CONFIG true)
  = snd (scanRepository Examples.no_git "/repo" DEFAULT_CONFIG false).
Proof.
  apply (incremental_scan_falls_back_to_full_scan Examples.no_git "/repo"
           DEFAULT_CONFIG).
  reflexivity.
Defined.

Lemma snd_getChangedFiles (w : world) (repoPath : string) :
  snd (getChangedFiles w repoPath) =
  match fs_access w (path_join w repoPath ".git") with
  | Rejected _ => Ok []
  | Resolved _ =>
      match git_diff_name_only_HEAD w repoPath with
      | Rejected e => Exn e
      | Resolved stdout =>
          Ok (filter (fun file => endsWith file ".ts")
                (split newline (trim stdout)))
      end
  end.
Proof.
  unfold getChangedFiles.
  destruct (fs_access w (path_join w repoPath ".git")) as [[]|e0]; simpl;
    [|reflexivity].
  destruct (git_diff_name_only_HEAD w repoPath); reflexivity.
Qed.

Lemma snd_getTypeScriptFiles (w : world) (dir : string) (ignored : list string) :
  snd (getTypeScriptFiles w dir ignored) =
  match glob_ts w dir ignored with
  | Resolved files => Ok files
  | Rejected e => Exn e
  end.
Proof.
  unfold getTypeScriptFiles, adopt; simpl.
  destruct (glob_ts w dir ignored); reflexivity.
Qed.

Lemma snd_parallelProcess_analyzeFile (w : world) (tsConfig : ts_config)
    (config : scan_config) (files : list string) :
  snd (parallelProcess (S (length files)) files
         (fun file => analyzeFile w file tsConfig config) default_limit)
  = Ok (analysed w tsConfig config files).
Proof.
  apply parallelProcess_Ok.
  - unfold default_limit; lia.
  - lia.
  - intros f _. apply analyzeFile_resolved_list.
Qed.

(** What a scan settles with, once the files are chosen. *)
Lemma snd_scan_of_files (w : world) (tsConfig : ts_config)
    (config : scan_config) (chosen : Exec (list string)) :
  snd (files <- chosen ;;
       components <- parallelProcess (S (length files)) files
                       (fun file => analyzeFile w file tsConfig config)
                       default_limit ;;
       ret (aggregate components))
  = match snd chosen with
    | Ok files => Ok (aggregate (analysed w tsConfig config files))
    | Exn e => Exn e
    | OutOfFuel => OutOfFuel
    end.
Proof.
  rewrite snd_bind. destruct (snd chosen) as [files|e|]; try reflexivity.
  rewrite snd_bind, snd_parallelProcess_analyzeFile. reflexivity.
Qed.

(** X3.  A report [scanRepository] resolves with is the aggregate of the
    analyses of the chosen files, in their order: the changed files when the
    scan is incremental and there are some, the files the glob lists
    otherwise. *)
Theorem scanRepository_analysed_files :
  forall (w : world) (repoPath : string) (config : scan_config)
         (incremental : bool) (r : Report.t),
    snd (scanRepository w repoPath config incremental) = Ok r ->
    exists tsConfig files,
      snd (loadTsConfig w (path_join w repoPath "tsconfig.json")) = Ok tsConfig /\
      r = aggregate (analysed w tsConfig config files) /\
      ((incremental = true /\ files <> [] /\
        snd (getChangedFiles w repoPath) = Ok files) \/
       ((incremental = false \/ snd (getChangedFiles w repoPath) = Ok []) /\
        glob_ts w repoPath (ignore config) = Resolved files)).
Proof.
  intros w repoPath config incremental r H.
  unfold scanRepository in H. rewrite snd_bind in H.
  destruct (loadTsConfig_resolves w (path_join w repoPath "tsconfig.json"))
    as (tsConfig & Hts).
  rewrite Hts in H. rewrite snd_scan_of_files in H.
  exists tsConfig.
  destruct incremental.
  - rewrite snd_bind in H.
    destruct (snd (getChangedFiles w repoPath)) as [changed|e|] eqn:Hch;
      try discriminate.
    destruct changed as [|f changed]; simpl in H.
    + rewrite snd_getTypeScriptFiles in H.
      destruct (glob_ts w repoPath (ignore config)) as [files|e] eqn:Hg;
        [|discriminate].
      exists files. split; [exact Hts|]. split; [injection H as H; symmetry; exact H|].
      right. split; [right; reflexivity|reflexivity].
    + exists (f :: changed). split; [exact Hts|]. split; [injection H as H; symmetry; exact H|].
      left. repeat split. discriminate.
  - rewrite snd_getTypeScriptFiles in H.
    destruct (glob_ts w repoPath (ignore config)) as [files|e] eqn:Hg;
      [|discriminate].
    exists files. split; [exact Hts|]. split; [injection H as H; symmetry; exact H|].
    right. split; [left; reflexivity|reflexivity].
Qed.

Lemma scanRepository_analysed_files_witness :
  exists r,
    snd (scanRepository CliExamples.changed_repo "/repo" DEFAULT_CONFIG true) = Ok r /\
    exists tsConfig files,
      snd (loadTsConfig CliExamples.changed_repo
             (path_join CliExamples.changed_repo "/repo" "tsconfig.json"))
        = Ok tsConfig /\
      r = aggregate (analysed CliExamples.changed_repo tsConfig DEFAULT_CONFIG files) /\
      ((true = true /\ files <> [] /\
        snd (getChangedFiles CliExamples.changed_repo "/repo") = Ok files) \/
       ((true = false \/
         snd (getChangedFiles CliExamples.changed_repo "/repo") = Ok []) /\
        glob_ts CliExamples.changed_repo "/repo" (ignore DEFAULT_CONFIG)
          = Resolved files)).
Proof.
  eexists; split.
  - vm_compute; reflexivity.
  - apply (scanRepository_analysed_files CliExamples.changed_repo "/repo"
             DEFAULT_CONFIG true).
    vm_compute; reflexivity.
Defined.

(** The ways a scan can settle. *)
Lemma scanRepository_settles_cases :
  forall (w : world) (repoPath : string) (config : scan_config)
         (incremental : bool),
    (exists r, snd (scanRepository w repoPath config incremental) = Ok r) \/
    (exists e,
        snd (scanRepository w repoPath config incremental) = Exn e /\
        ((incremental = true /\
          (exists u, fs_access w (path_join w repoPath ".git") = Resolved u) /\
          git_diff_name_only_HEAD w repoPath = Rejected e) \/
         glob_ts w repoPath (ignore config) = Rejected e)).
Proof.
  intros w repoPath config incremental.
  unfold scanRepository. rewrite snd_bind.
  destruct (loadTsConfig_resolves w (path_join w repoPath "tsconfig.json"))
    as (tsConfig & ->).
  rewrite snd_scan_of_files.
  destruct incremental.
  - rewrite snd_bind, snd_getChangedFiles.
    destruct (fs_access w (path_join w repoPath ".git")) as [u|e0].
    + destruct (git_diff_name_only_HEAD w repoPath) as [stdout|e].
      * destruct (filter (fun file => endsWith file ".ts")
                    (split newline (trim stdout))) as [|f changed]; simpl.
        -- rewrite snd_getTypeScriptFiles.
           destruct (glob_ts w repoPath (ignore config)) as [files|e].
           ++ left; eexists; reflexivity.
           ++ right; exists e; split; [reflexivity|right; reflexivity].
        -- left; eexists; reflexivity.
      * right; exists e; split; [reflexivity|].
        left. split; [reflexivity|]. split; [exists u; reflexivity|reflexivity].
    + simpl. rewrite snd_getTypeScriptFiles.
      destruct (glob_ts w repoPath (ignore config)) as [files|e].
      * left; eexists; reflexivity.
      * right; exists e; split; [reflexivity|right; reflexivity].
  - rewrite snd_getTypeScriptFiles.
    destruct (glob_ts w repoPath (ignore config)) as [files|e].
    + left; eexists; reflexivity.
    + right; exists e; split; [reflexivity|right; reflexivity].
Qed.

(** X4.  [scanRepository] always settles.  It rejects in two cases only:
    the scan is incremental, [.git] is there and [git diff] fails; or the
    glob that lists the files rejects.  No file can make it reject. *)
Theorem scanRepository_settles :
  forall (w : world) (repoPath : string) (config : scan_config)
         (incremental : bool),
    (exists r, snd (scanRepository w repoPath config incremental) = Ok r) \/
    (exists e,
        snd (scanRepository w repoPath config incremental) = Exn e /\
        ((incremental = true /\
          (exists u, fs_access w (path_join w repoPath ".git") = Resolved u) /\
          git_diff_name_only_HEAD w repoPath = Rejected e) \/
         glob_ts w repoPath (ignore config) = Rejected e)).
Proof.
  exact scanRepository_settles_cases.
Qed.

(** ** More on [parallelProcess] *)

Lemma promise_all_map_rejects {A B} (fn : A -> Exec B) (xs : list A) :
  (forall y, In y xs -> snd (fn y) <> OutOfFuel) ->
  (exists x e, In x xs /\ snd (fn x) = Exn e) ->
  exists y e', In y xs /\ snd (fn y) = Exn e' /\
               snd (promise_all_map fn xs) = Exn e'.
Proof.
  induction xs as [|x0 xs IH]; intros Hfuel (x & e & Hin & Hx).
  - destruct Hin.
  - simpl. rewrite snd_bind.
    destruct (snd (fn x0)) as [v|e0|] eqn:H0.
    + destruct Hin as [<-|Hin]; [congruence|].
      destruct IH as (y & e' & Hy & Hfy & Hrun).
      * intros z Hz; apply Hfuel; now right.
      * exists x, e; split; assumption.
      * exists y, e'. split; [now right|]. split; [exact Hfy|].
        rewrite snd_bind, Hrun; reflexivity.
    + exists x0, e0. split; [now left|]. split; [exact H0|reflexivity].
    + exfalso. apply (Hfuel x0); [now left|exact H0].
Qed.

Lemma promise_all_map_settles {A B} (fn : A -> Exec B) (xs : list A) :
  (forall y, In y xs -> snd (fn y) <> OutOfFuel) ->
  (exists vs, snd (promise_all_map fn xs) = Ok vs /\
              Forall (fun y => exists v, snd (fn y) = Ok v) xs) \/
  (exists y e', In y xs /\ snd (fn y) = Exn e' /\
                snd (promise_all_map fn xs) = Exn e').
Proof.
  induction xs as [|x0 xs IH]; intros Hfuel; simpl.
  - left; exists []; split; [reflexivity|constructor].
  - rewrite snd_bind.
    destruct (snd (fn x0)) as [v|e0|] eqn:H0.
    + destruct IH as [(vs & Hvs & Hall)|(y & e' & Hy & Hfy & Hrun)].
      * intros z Hz; apply Hfuel; now right.
      * left. exists (v :: vs). split.
        -- rewrite snd_bind, Hvs; reflexivity.
        -- constructor; [exists v; exact H0|exact Hall].
      * right. exists y, e'. split; [now right|]. split; [exact Hfy|].
        rewrite snd_bind, Hrun; reflexivity.
    + right. exists x0, e0. split; [now left|]. split; [exact H0|reflexivity].
    + exfalso. apply (Hfuel x0); [now left|exact H0].
Qed.

Lemma batches_run_rejects {A B} (fn : A -> Exec B) (bs : list (list A)) :
  (forall y, In y (concat bs) -> snd (fn y) <> OutOfFuel) ->
  (exists x e, In x (concat bs) /\ snd (fn x) = Exn e) ->
  forall results,
    exists y e', In y (concat bs) /\ snd (fn y) = Exn e' /\
                 snd (batches_run fn bs results) = Exn e'.
Proof.
  induction bs as [|b bs IH]; intros Hfuel (x & e & Hin & Hx) results.
  - destruct Hin.
  - simpl in Hin, Hfuel |- *. rewrite snd_bind.
    destruct (promise_all_map_settles fn b) as
      [(vs & Hvs & Hall)|(y & e' & Hy & Hfy & Hrun)].
    + intros z Hz; apply Hfuel, in_or_app; now left.
    + rewrite Hvs.
      destruct (IH) with (results := results ++ vs) as (y & e' & Hy & Hfy & Hrun).
      * intros z Hz; apply Hfuel, in_or_app; now right.
      * apply in_app_or in Hin. destruct Hin as [Hin|Hin].
        -- rewrite Forall_forall in Hall. destruct (Hall x Hin) as (v & Hv).
           congruence.
        -- exists x, e; split; assumption.
      * exists y, e'. split; [apply in_or_app; now right|].
        split; [exact Hfy|exact Hrun].
    + rewrite Hrun. exists y, e'. split; [apply in_or_app; now left|].
      split; [exact Hfy|reflexivity].
Qed.

(** X5.  With a limit of at least 1, as soon as the per-item operation
    rejects on one item, [parallelProcess] rejects, with the error of an
    item whose operation rejected: it never resolves with the results of
    the other items. *)
Theorem parallelProcess_rejects_with_an_item :
  forall (A B : Type) (items : list A) (fn : A -> Exec B) (limit fuel : nat)
         (x : A) (e : error),
    0 < limit ->
    length items < fuel ->
    (forall y, In y items -> snd (fn y) <> OutOfFuel) ->
    In x items ->
    snd (fn x) = Exn e ->
    exists y e',
      In y items /\ snd (fn y) = Exn e' /\
      snd (parallelProcess fuel items fn limit) = Exn e'.
Proof.
  intros A B items fn limit fuel x e Hl Hfuel Hsettle Hin Hx.
  destruct (batch_loop_chunks items limit Hl fuel 0 []) as
    (bs & Hrun & Hcat & _ & _); [lia|].
  simpl in Hrun, Hcat. unfold parallelProcess. rewrite Hrun.
  rewrite <- Hcat in Hsettle, Hin |- *.
  apply batches_run_rejects; [exact Hsettle|].
  exists x, e; split; assumption.
Qed.

Lemma parallelProcess_rejects_with_an_item_witness :
  exists y e',
    In y [1; 2; 3; 4; 5] /\
    snd ((fun n => if Nat.eqb n 4 then throw "four" else ret n) y) = Exn e' /\
    snd (parallelProcess 6 [1; 2; 3; 4; 5]
           (fun n => if Nat.eqb n 4 then throw "four" else ret n) 2) = Exn e'.
Proof.
  apply (parallelProcess_rejects_with_an_item nat nat [1; 2; 3; 4; 5]
           (fun n => if Nat.eqb n 4 then throw "four" else ret n) 2 6 4 "four").
  - lia.
  - simpl; lia.
  - intros y _. destruct (Nat.eqb y 4); discriminate.
  - simpl; tauto.
  - reflexivity.
Defined.

(** X6.  With the limit 0 and at least one item the first loop of
    [parallelProcess] never ends: whatever the fuel, the call is still
    running, and the per-item operation has not been called. *)
Theorem parallelProcess_limit_0_never_ends :
  forall (A B : Type) (items : list A) (fn : A -> Exec B) (fuel : nat),
    items <> [] ->
    parallelProcess fuel items fn 0 = ([], OutOfFuel).
Proof.
  intros A B items fn fuel Hne. unfold parallelProcess.
  rewrite (batch_loop_limit_0 items Hne); reflexivity.
Qed.

Lemma parallelProcess_limit_0_never_ends_witness :
  parallelProcess 1000 ["a.ts"] (fun file => ret file) 0 = ([], OutOfFuel).
Proof.
  apply (parallelProcess_limit_0_never_ends string string ["a.ts"]
           (fun file => ret file) 1000).
  discriminate.
Defined.

Lemma length_slice {A} (items : list A) (i limit : nat) :
  length (slice items i (i + limit)) = Nat.min limit (length items - i).
Proof.
  rewrite slice_firstn, length_firstn, length_skipn; reflexivity.
Qed.

(** The batches pushed from index [i] on are the consecutive slices. *)
Lemma batch_loop_slices {A} (items : list A) (limit : nat) :
  0 < limit ->
  forall fuel i acc,
    length items - i < fuel ->
    exists bs,
      batch_loop fuel items limit i acc = Some (acc ++ bs) /\
      forall j b,
        nth_error bs j = Some b ->
        b = slice items (i + j * limit) (i + j * limit + limit) /\
        i + j * limit < length items.
Proof.
  intros Hl; induction fuel as [|fuel IH]; intros i acc Hfuel; [lia|].
  simpl. destruct (Nat.ltb_spec i (length items)) as [Hi|Hi].
  - destruct (IH (i + limit) (acc ++ [slice items i (i + limit)])) as
      (bs & Hrun & Hnth); [lia|].
    exists (slice items i (i + limit) :: bs). split.
    + rewrite Hrun, <- app_assoc; reflexivity.
    + intros [|j] b Hb; simpl in Hb.
      * injection Hb as <-. rewrite Nat.add_0_r. split; [reflexivity|exact Hi].
      * destruct (Hnth j b Hb) as (-> & Hlt).
        replace (i + S j * limit) with (i + limit + j * limit) by (simpl; lia).
        split; [reflexivity|exact Hlt].
  - exists []. split; [rewrite app_nil_r; reflexivity|].
    intros [|j] b Hb; discriminate.
Qed.

(** X7.  With a limit L >= 1, batch number j (from 0) is the slice of the
    items from index j * L up to j * L + L: it is not empty and has L items,
    or what is left of the list when that is less. *)
Theorem parallelProcess_batch_contents :
  forall (A : Type) (items : list A) (limit fuel : nat),
    0 < limit ->
    length items < fuel ->
    exists batches,
      batch_loop fuel items limit 0 [] = Some batches /\
      forall j b,
        nth_error batches j = Some b ->
        b = slice items (j * limit) (j * limit + limit) /\
        length b = Nat.min limit (length items - j * limit) /\
        0 < length b.
Proof.
  intros A items limit fuel Hl Hfuel.
  destruct (batch_loop_slices items limit Hl fuel 0 []) as (bs & Hrun & Hnth);
    [lia|].
  exists bs. split; [exact Hrun|].
  intros j b Hb. destruct (Hnth j b Hb) as (-> & Hlt). simpl in Hlt |- *.
  split; [reflexivity|].
  rewrite length_slice. split; [reflexivity|lia].
Qed.

Lemma parallelProcess_batch_contents_witness :
  exists batches,
    batch_loop 8 [1; 2; 3; 4; 5; 6; 7] 3 0 [] = Some batches /\
    forall j b,
      nth_error batches j = Some b ->
      b = slice [1; 2; 3; 4; 5; 6; 7] (j * 3) (j * 3 + 3) /\
      length b = Nat.min 3 (7 - j * 3) /\
      0 < length b.
Proof.
  apply (parallelProcess_batch_contents nat [1; 2; 3; 4; 5; 6; 7] 3 8).
  - lia.
  - simpl; lia.
Defined.

(** ** The records of a file *)

Lemma visit_ClassDeclaration_cases (filePath : string) (id_name : option string)
    (decorators : option (list decorator)) (st st' : visitor_state) :
  visit_ClassDeclaration filePath id_name decorators st = Normal st' ->
  st' = st \/
  exists class_name selector_value (isInlineTemplate : bool),
    st' = push st
            {| name := class_name;
               selector := Some selector_value;
               isDesignSystem := false;
               source := JString "custom";
               filePath := filePath;
               viaComposition := Some (usesDesignSystem st);
               isDynamicImport := None;
               usage := Some {| inline := if isInlineTemplate then 1 else 0;
                                external := if isInlineTemplate then 0 else 1 |} |}.
Proof.
  unfold visit_ClassDeclaration.
  assert (Hnone : Normal st = Normal st' -> st' = st \/
            exists class_name selector_value (isInlineTemplate : bool),
              st' = push st
                      {| name := class_name;
                         selector := Some selector_value;
                         isDesignSystem := false;
                         source := JString "custom";
                         filePath := filePath;
                         viaComposition := Some (usesDesignSystem st);
                         isDynamicImport := None;
                         usage := Some {| inline := if isInlineTemplate then 1 else 0;
                                          external := if isInlineTemplate then 0 else 1 |} |})
    by (intros H; injection H as <-; now left).
  destruct decorators as [ds|]; [|exact Hnone].
  destruct (find is_Component_decorator ds) as [d|]; [|exact Hnone].
  clear Hnone.
  - intros Hrun.
    do 3 (apply cbind_Normal_inv in Hrun; destruct Hrun as (? & _ & Hrun)).
    apply cbind_Normal_inv in Hrun; destruct Hrun as (selector_value & _ & Hrun).
    apply cbind_Normal_inv in Hrun; destruct Hrun as (? & _ & Hrun).
    apply cbind_Normal_inv in Hrun; destruct Hrun as (isInlineTemplate & _ & Hrun).
    apply cbind_Normal_inv in Hrun; destruct Hrun as (class_name & _ & Hrun).
    injection Hrun as <-. right.
    exists class_name, selector_value, isInlineTemplate; reflexivity.
Qed.

Section Records.

Variables (w : world) (filePath : string) (tsConfig : ts_config)
          (config : scan_config).

(** One handler call: the new records are built by one of the three
    object literals, with the accumulator as it was before the call. *)
Lemma visit_emits (n : node) (st st' : visitor_state) :
  visit w filePath tsConfig config n st = Normal st' ->
  exists new,
    components st' = components st ++ new /\
    Forall (emitted filePath config (usesDesignSystem st)) new.
Proof.
  destruct n as [src specs|id decos|cal args|]; simpl.
  - unfold visit_ImportDeclaration.
    destruct (is_design_system_source config (resolveImport w src filePath tsConfig))
      eqn:Hq; intros H; injection H as <-; simpl.
    + eexists; split; [reflexivity|].
      apply Forall_forall. intros c Hc. apply in_map_iff in Hc.
      destruct Hc as (s & <- & _). constructor; exact Hq.
    + exists []; split; [now rewrite app_nil_r|constructor].
  - intros H. apply visit_ClassDeclaration_cases in H.
    destruct H as [->|(n & v & b & ->)].
    + exists []; split; [now rewrite app_nil_r|constructor].
    + eexists; split; [reflexivity|]. repeat constructor.
  - unfold visit_CallExpression.
    destruct (name_is (callee_name_of cal) "loadChildren").
    + destruct args as [|a args]; [discriminate|].
      intros H; injection H as <-; simpl.
      eexists; split; [reflexivity|]. repeat constructor.
    + intros H; injection H as <-.
      exists []; split; [now rewrite app_nil_r|constructor].
  - intros H; injection H as <-.
    exists []; split; [now rewrite app_nil_r|constructor].
Qed.

Lemma visit_all_emits (nodes : list node) :
  forall st st',
    visit_all w filePath tsConfig config nodes st = Normal st' ->
    exists new,
      components st' = components st ++ new /\
      Forall (fun c => exists uses, emitted filePath config uses c) new.
Proof.
  induction nodes as [|n nodes IH]; intros st st' H; simpl in H.
  - injection H as <-. exists []; split; [now rewrite app_nil_r|constructor].
  - apply cbind_Normal_inv in H. destruct H as (st1 & H1 & H2).
    destruct (visit_emits _ _ _ H1) as (new1 & Hc1 & Hall1).
    destruct (IH _ _ H2) as (new2 & Hc2 & Hall2).
    exists (new1 ++ new2). split.
    + rewrite Hc2, Hc1, app_assoc; reflexivity.
    + apply Forall_app; split; [|exact Hall2].
      eapply Forall_impl; [|exact Hall1].
      intros c Hc; exists (usesDesignSystem st); exact Hc.
Qed.

Lemma analyzeFile_cases :
  (exists tree final,
      traverse w filePath tsConfig config tree = Normal final /\
      analyzeFile w filePath tsConfig config = ([], Ok (components final))) \/
  (exists e,
      analyzeFile w filePath tsConfig config
      = ([("Failed to analyze " ++ filePath ++ ": " ++ e)%string], Ok [])).
Proof.
  unfold analyzeFile.
  destruct (fs_readFile w filePath) as [content|e]; simpl;
    [|right; exists e; reflexivity].
  destruct (babel_parse w content) as [tree|e]; simpl;
    [|right; exists e; reflexivity].
  destruct (traverse w filePath tsConfig config tree) as [final|e] eqn:Ht; simpl.
  - left; exists tree, final; split; [exact Ht|reflexivity].
  - right; exists e; reflexivity.
Qed.

Lemma analyzeFile_records_emitted (records : list component) :
  snd (analyzeFile w filePath tsConfig config) = Ok records ->
  Forall (fun c => exists uses, emitted filePath config uses c) records.
Proof.
  destruct analyzeFile_cases as [(tree & final & Ht & ->)|(e & ->)]; simpl;
    intros H; injection H as <-; [|constructor].
  destruct (visit_all_emits _ _ _ Ht) as (new & Hc & Hall).
  rewrite Hc; exact Hall.
Qed.

End Records.

(** X8.  Every record of the list [analyzeFile] resolves with carries the
    path of the analysed file.  A design-system record has as [source] a
    string that starts with a configured prefix; a custom record has the
    source [custom] and a [viaComposition] field; a dynamic-import record
    has the name [lazy-loaded]. *)
Theorem analyzeFile_record_origin :
  forall (w : world) (file : string) (tsConfig : ts_config)
         (config : scan_config) (records : list component) (c : component),
    snd (analyzeFile w file tsConfig config) = Ok records ->
    In c records ->
    filePath c = file /\
    match classify c with
    | design_system_import =>
        exists resolvedSource,
          source c = JString resolvedSource /\
          is_design_system_source config resolvedSource = true
    | custom_component =>
        source c = JString "custom" /\ exists flag, viaComposition c = Some flag
    | dynamic_import_reference =>
        name c = "lazy-loaded" /\ isDynamicImport c = Some true
    end.
Proof.
  intros w file tsConfig config records c Hrun Hin.
  pose proof (analyzeFile_records_emitted w file tsConfig config records Hrun) as Hall.
  rewrite Forall_forall in Hall. destruct (Hall c Hin) as (uses & Hc).
  destruct Hc as [local resolved Hq|n v b|v]; simpl; split; try reflexivity.
  - exists resolved; split; [reflexivity|exact Hq].
  - split; [reflexivity|exists uses; reflexivity].
  - split; reflexivity.
Qed.

Lemma analyzeFile_record_origin_witness :
  exists c,
    filePath c = "/repo/a.ts" /\
    match classify c with
    | design_system_import =>
        exists resolvedSource,
          source c = JString resolvedSource /\
          is_design_system_source DEFAULT_CONFIG resolvedSource = true
    | custom_component =>
        source c = JString "custom" /\ exists flag, viaComposition c = Some flag
    | dynamic_import_reference =>
        name c = "lazy-loaded" /\ isDynamicImport c = Some true
    end.
Proof.
  eexists.
  eapply (analyzeFile_record_origin Examples.three_files "/repo/a.ts"
            Examples.no_tsconfig DEFAULT_CONFIG).
  - vm_compute; reflexivity.
  - left; reflexivity.
Defined.

(** X9.  In the list [analyzeFile] resolves with, a design-system record
    has [usage = { inline: 0, external: 0 }], a custom record has exactly
    one of [inline] and [external] set to 1, and a dynamic-import record has
    no [usage] field. *)
Theorem analyzeFile_record_usage :
  forall (w : world) (file : string) (tsConfig : ts_config)
         (config : scan_config) (records : list component) (c : component),
    snd (analyzeFile w file tsConfig config) = Ok records ->
    In c records ->
    match classify c with
    | design_system_import => usage c = Some {| inline := 0; external := 0 |}
    | custom_component =>
        usage c = Some {| inline := 1; external := 0 |} \/
        usage c = Some {| inline := 0; external := 1 |}
    | dynamic_import_reference => usage c = None
    end.
Proof.
  intros w file tsConfig config records c Hrun Hin.
  pose proof (analyzeFile_records_emitted w file tsConfig config records Hrun) as Hall.
  rewrite Forall_forall in Hall. destruct (Hall c Hin) as (uses & Hc).
  destruct Hc as [local resolved Hq|n v b|v]; simpl; try reflexivity.
  destruct b; [now left|now right].
Qed.

Lemma analyzeFile_record_usage_witness :
  exists c,
    In c (resolved_list (analyzeFile Examples.three_files "/repo/a.ts"
                           Examples.no_tsconfig DEFAULT_CONFIG)) /\
    classify c = custom_component /\
    match classify c with
    | design_system_import => usage c = Some {| inline := 0; external := 0 |}
    | custom_component =>
        usage c = Some {| inline := 1; external := 0 |} \/
        usage c = Some {| inline := 0; external := 1 |}
    | dynamic_import_reference => usage c = None
    end.
Proof.
  eexists. split; [|split].
  - vm_compute. right; left; reflexivity.
  - reflexivity.
  - eapply (analyzeFile_record_usage Examples.three_files "/repo/a.ts"
              Examples.no_tsconfig DEFAULT_CONFIG).
    + vm_compute; reflexivity.
    + right; left; reflexivity.
Defined.

(** X10.  [analyzeFile] logs at most one line.  Either it logs nothing and
    resolves with the records of a walk that ended, or it logs the line
    [Failed to analyze <path>: <message>] and resolves with the empty list:
    a warning and records never come together. *)
Theorem analyzeFile_warns_or_reports :
  forall (w : world) (file : string) (tsConfig : ts_config)
         (config : scan_config),
    (exists tree final,
        traverse w file tsConfig config tree = Normal final /\
        analyzeFile w file tsConfig config = ([], Ok (components final))) \/
    (exists e,
        analyzeFile w file tsConfig config
        = ([("Failed to analyze " ++ file ++ ": " ++ e)%string], Ok [])).
Proof.
  intros w file tsConfig config. apply analyzeFile_cases.
Qed.

(** ** The order of the records *)

Lemma ForallOrdPairs_all {A} (R : A -> A -> Prop) (l : list A) :
  (forall a b, In a l -> In b l -> R a b) -> ForallOrdPairs R l.
Proof.
  induction l as [|x l IH]; intros H; constructor.
  - apply Forall_forall. intros b Hb. apply H; [now left|now right].
  - apply IH. intros a b Ha Hb. apply H; now right.
Qed.

Lemma ForallOrdPairs_app {A} (R : A -> A -> Prop) (l1 l2 : list A) :
  ForallOrdPairs R l1 -> ForallOrdPairs R l2 ->
  (forall a b, In a l1 -> In b l2 -> R a b) ->
  ForallOrdPairs R (l1 ++ l2).
Proof.
  induction l1 as [|x l1 IH]; intros H1 H2 Hcross; simpl; [exact H2|].
  inversion H1 as [|? ? Hx Hl1]; subst. constructor.
  - apply Forall_app; split; [exact Hx|].
    apply Forall_forall. intros b Hb. apply Hcross; [now left|exact Hb].
  - apply IH; [exact Hl1|exact H2|].
    intros a b Ha Hb. apply Hcross; [now right|exact Hb].
Qed.

Lemma ForallOrdPairs_later {A} (R : A -> A -> Prop) (l1 : list A) (x : A)
    (rest : list A) :
  ForallOrdPairs R (l1 ++ x :: rest) -> Forall (R x) rest.
Proof.
  induction l1 as [|y l1 IH]; simpl; intros H;
    inversion H as [|? ? Hy Hl]; subst; [exact Hy|apply IH; exact Hl].
Qed.

Lemma emitted_flag (filePath : string) (config : scan_config) (uses : bool)
    (c : component) :
  emitted filePath config uses c ->
  (compositionFlag c = true -> uses = true) /\
  (classify c = custom_component -> compositionFlag c = uses).
Proof.
  intros [local resolved Hq|n v b|v]; simpl; split; intros H;
    try discriminate; try reflexivity; exact H.
Qed.

Section Order.

Variables (w : world) (filePath : string) (tsConfig : ts_config)
          (config : scan_config).

Lemma visit_keeps_flags_in_order (n : node) (st st' : visitor_state) :
  visit w filePath tsConfig config n st = Normal st' ->
  flags_in_order st -> flags_in_order st'.
Proof.
  intros Hrun [Hset Hord].
  destruct (visit_emits w filePath tsConfig config _ _ _ Hrun) as (new & Hc & Hnew).
  destruct (visit_step w filePath tsConfig config _ _ _ Hrun) as (Huses & _).
  rewrite Forall_forall in Hnew.
  split; rewrite Hc.
  - intros c Hin Hflag. rewrite Huses. apply orb_true_iff; left.
    apply in_app_or in Hin. destruct Hin as [Hin|Hin].
    + apply (Hset c Hin Hflag).
    + apply (emitted_flag _ _ _ _ (Hnew c Hin)); exact Hflag.
  - apply ForallOrdPairs_app; [exact Hord| |].
    + apply ForallOrdPairs_all. intros a b Ha Hb Hflag Hcustom.
      destruct (emitted_flag _ _ _ _ (Hnew a Ha)) as [Hua _].
      destruct (emitted_flag _ _ _ _ (Hnew b Hb)) as [_ Hub].
      rewrite (Hub Hcustom). apply Hua; exact Hflag.
    + intros a b Ha Hb Hflag Hcustom.
      destruct (emitted_flag _ _ _ _ (Hnew b Hb)) as [_ Hub].
      rewrite (Hub Hcustom). apply (Hset a Ha Hflag).
Qed.

Lemma visit_all_keeps_flags_in_order (nodes : list node) :
  forall st st',
    visit_all w filePath tsConfig config nodes st = Normal st' ->
    flags_in_order st -> flags_in_order st'.
Proof.
  induction nodes as [|n nodes IH]; intros st st' H Hinv; simpl in H.
  - injection H as <-; exact Hinv.
  - apply cbind_Normal_inv in H. destruct H as (st1 & H1 & H2).
    apply (IH _ _ H2). apply (visit_keeps_flags_in_order _ _ _ H1 Hinv).
Qed.

(** The names of the design-system records grow by the bindings of the
    node that is entered. *)
Lemma visit_design_system_names (n : node) (st st' : visitor_state) :
  visit w filePath tsConfig config n st = Normal st' ->
  design_system_names (components st') =
  design_system_names (components st)
  ++ design_system_bindings w filePath tsConfig config n.
Proof.
  unfold design_system_names.
  destruct n as [src specs|id decos|cal args|]; simpl.
  - unfold visit_ImportDeclaration.
    destruct (is_design_system_source config (resolveImport w src filePath tsConfig));
      intros H; injection H as <-; simpl; [|now rewrite app_nil_r].
    rewrite filter_app, map_app. f_equal.
    induction (filter is_named_or_default specs) as [|s l IH]; simpl;
      [reflexivity|now rewrite IH].
  - intros H. apply visit_ClassDeclaration_cases in H.
    destruct H as [->|(n & v & b & ->)]; simpl; [now rewrite app_nil_r|].
    rewrite filter_app; simpl. now rewrite !app_nil_r.
  - unfold visit_CallExpression.
    destruct (name_is (callee_name_of cal) "loadChildren").
    + destruct args as [|a args]; [discriminate|].
      intros H; injection H as <-; simpl.
      rewrite filter_app; simpl. now rewrite !app_nil_r.
    + intros H; injection H as <-; now rewrite app_nil_r.
  - intros H; injection H as <-; now rewrite app_nil_r.
Qed.

Lemma visit_all_design_system_names (nodes : list node) :
  forall st st',
    visit_all w filePath tsConfig config nodes st = Normal st' ->
    design_system_names (components st') =
    design_system_names (components st)
    ++ flat_map (design_system_bindings w filePath tsConfig config) nodes.
Proof.
  induction nodes as [|n nodes IH]; intros st st' H; simpl in H |- *.
  - injection H as <-; now rewrite app_nil_r.
  - apply cbind_Normal_inv in H. destruct H as (st1 & H1 & H2).
    rewrite (IH _ _ H2), (visit_design_system_names _ _ _ H1), app_assoc.
    reflexivity.
Qed.

End Order.

(** X11.  In the record list of a file, once a record has its composition
    flag set, every custom record after it has it set too: the flag never
    goes back to false further down the file. *)
Theorem compositionFlag_never_goes_back :
  forall (w : world) (file : string) (tsConfig : ts_config)
         (config : scan_config) (before between after : list component)
         (c1 c2 : component),
    snd (analyzeFile w file tsConfig config)
      = Ok (before ++ c1 :: between ++ c2 :: after) ->
    compositionFlag c1 = true ->
    classify c2 = custom_component ->
    compositionFlag c2 = true.
Proof.
  intros w file tsConfig config before between after c1 c2 Hrun Hflag Hcustom.
  destruct (analyzeFile_cases w file tsConfig config) as
    [(tree & final & Ht & Heq)|(e & Heq)]; rewrite Heq in Hrun; simpl in Hrun.
  - injection Hrun as Hrecords.
    assert (Hinv : flags_in_order final).
    { apply (visit_all_keeps_flags_in_order w file tsConfig config _ _ _ Ht).
      split; [intros c []|constructor]. }
    destruct Hinv as [_ Hord]. rewrite Hrecords in Hord.
    apply ForallOrdPairs_later in Hord. rewrite Forall_forall in Hord.
    apply (Hord c2); [|exact Hflag|exact Hcustom].
    apply in_or_app; right; now left.
  - injection Hrun as Hnil. destruct before; discriminate.
Qed.

Lemma compositionFlag_never_goes_back_witness :
  exists c1 d1 d2 c2,
    snd (analyzeFile CliExamples.two_classes_file "/repo/two.ts"
           Examples.no_tsconfig DEFAULT_CONFIG)
      = Ok ([] ++ c1 :: [d1; d2] ++ c2 :: []) /\
    compositionFlag c2 = true.
Proof.
  do 4 eexists. split.
  - vm_compute; reflexivity.
  - eapply (compositionFlag_never_goes_back CliExamples.two_classes_file
              "/repo/two.ts" Examples.no_tsconfig DEFAULT_CONFIG []
              (firstn 2 (skipn 1 (resolved_list
                 (analyzeFile CliExamples.two_classes_file "/repo/two.ts"
                    Examples.no_tsconfig DEFAULT_CONFIG)))) []).
    + vm_compute; reflexivity.
    + reflexivity.
    + reflexivity.
Defined.

(** X12.  When a file is read, parsed and walked to the end, the names of
    its design-system records are, in order, the local names bound by the
    named and default specifiers of the imports that qualify.  A namespace
    import or an import without specifier brings no record. *)
Theorem design_system_records_are_import_bindings :
  forall (w : world) (file content : string) (tsConfig : ts_config)
         (config : scan_config) (tree : ast) (final : visitor_state),
    fs_readFile w file = Resolved content ->
    babel_parse w content = Normal tree ->
    traverse w file tsConfig config tree = Normal final ->
    exists records,
      snd (analyzeFile w file tsConfig config) = Ok records /\
      design_system_names records =
      flat_map (design_system_bindings w file tsConfig config) (preorder tree).
Proof.
  intros w file content tsConfig config tree final Hread Hparse Hwalk.
  exists (components final). split.
  - rewrite (analyzeFile_traversed _ _ _ _ _ _ _ Hread Hparse Hwalk); reflexivity.
  - apply (visit_all_design_system_names w file tsConfig config _ _ _ Hwalk).
Qed.

Lemma design_system_records_are_import_bindings_witness :
  exists records,
    snd (analyzeFile CliExamples.two_classes_file "/repo/two.ts"
           Examples.no_tsconfig DEFAULT_CONFIG) = Ok records /\
    design_system_names records =
    flat_map (design_system_bindings CliExamples.two_classes_file "/repo/two.ts"
                Examples.no_tsconfig DEFAULT_CONFIG)
             (preorder CliExamples.two_classes).
Proof.
  eapply (design_system_records_are_import_bindings
            CliExamples.two_classes_file "/repo/two.ts" "two-classes").
  - reflexivity.
  - reflexivity.
  - vm_compute; reflexivity.
Defined.

(** ** More on the summary *)

Lemma Qis_zero_false (x : Q) : ~ (x == 0)%Q -> Qis_zero x = false.
Proof.
  intros H; unfold Qis_zero. destruct (Qeq_dec x 0); [contradiction|reflexivity].
Qed.

Lemma Qis_zero_comp (x y : Q) : (x == y)%Q -> Qis_zero x = Qis_zero y.
Proof.
  intros H; unfold Qis_zero.
  destruct (Qeq_dec x 0) as [Hx|Hx], (Qeq_dec y 0) as [Hy|Hy]; try reflexivity.
  - exfalso; apply Hy; rewrite <- H; exact Hx.
  - exfalso; apply Hx; rewrite H; exact Hy.
Qed.

Lemma Qsign_pos_comp (x y : Q) : (x == y)%Q -> Qsign_pos x = Qsign_pos y.
Proof.
  intros H; unfold Qsign_pos.
  destruct (Qlt_le_dec 0 x) as [Hx|Hx], (Qlt_le_dec 0 y) as [Hy|Hy];
    try reflexivity; exfalso; rewrite H in Hx; lra.
Qed.

Lemma js_same_refl (a : jsnum) : js_same a a.
Proof. destruct a; simpl; [reflexivity|exact I|reflexivity]. Qed.

Lemma round2_same (x y : Q) :
  (x == y)%Q -> js_same (round2 (JFin x)) (round2 (JFin y)).
Proof.
  intros H. rewrite !round2_finite. unfold js_same.
  assert (Hf : Qfloor (x * 100 + (1 # 2)) = Qfloor (y * 100 + (1 # 2)))
    by (apply Qfloor_comp; rewrite H; reflexivity).
  rewrite Hf; reflexivity.
Qed.

Lemma Qfloor_plus_half (z : Z) : Qfloor (inject_Z z + (1 # 2)) = z.
Proof.
  unfold Qfloor, inject_Z, Qplus; simpl.
  symmetry; apply (Z.div_unique_pos _ _ _ 1); lia.
Qed.

(** Rounding leaves a whole number as it is. *)
Lemma round2_whole (x : Q) (z : Z) :
  (x == inject_Z z)%Q -> js_same (round2 (JFin x)) (JFin (inject_Z z)).
Proof.
  intros H. rewrite round2_finite. unfold js_same.
  assert (Hx : (x * 100 + (1 # 2) == inject_Z (z * 100) + (1 # 2))%Q)
    by (rewrite inject_Z_mult, H; reflexivity).
  rewrite (Qfloor_comp _ _ Hx), Qfloor_plus_half, inject_Z_mult.
  change (inject_Z 100) with 100%Q. field.
Qed.

Lemma weight_Q_at_least_half (c : component) : ((1 # 2) <= weight_Q c)%Q.
Proof.
  unfold weight_Q.
  destruct (isDesignSystem c); [discriminate|].
  destruct (truthy (isDynamicImport c)); [discriminate|].
  destruct (truthy (viaComposition c)); discriminate.
Qed.

Lemma sumQ_weights_at_least_half (l : list component) :
  (inject_Z (Z.of_nat (length l)) * (1 # 2) <= sumQ (map weight_Q l))%Q.
Proof.
  induction l as [|c l IH].
  - simpl; discriminate.
  - change (length (c :: l)) with (S (length l)).
    rewrite Nat2Z.inj_succ; unfold Z.succ; rewrite inject_Z_plus.
    simpl sumQ. pose proof (weight_Q_at_least_half c) as Hc.
    change (inject_Z 1) with 1%Q. lra.
Qed.

Lemma length_positive_Q {A} (l : list A) :
  l <> [] -> (0 < inject_Z (Z.of_nat (length l)))%Q.
Proof.
  intros H. destruct l as [|x l]; [congruence|].
  change 0%Q with (inject_Z 0). rewrite <- Zlt_Qlt. simpl length. lia.
Qed.

(** The percentage before it is rounded, for a list that is not empty. *)
Lemma adoptionPercentage_value (l : list component) :
  l <> [] ->
  exists q,
    weightedScore l = JFin q /\
    (q == sumQ (map weight_Q l))%Q /\
    adoptionPercentage l
    = JFin (q / (inject_Z (Z.of_nat (length l)) * 1) * 100)%Q.
Proof.
  intros Hne. destruct (weightedScore_value l) as (q & Hq & Hsum).
  exists q. split; [exact Hq|]. split; [exact Hsum|].
  unfold adoptionPercentage. rewrite Hq, maxScore_value. simpl.
  rewrite Qis_zero_false; [reflexivity|].
  pose proof (length_positive_Q l Hne). lra.
Qed.

(** X13.  As soon as there is one record, the reported
    [adoptionPercentage] is a finite number between 50 and 100: no scan
    reports less than 50, since no record weighs less than 0.5. *)
Theorem adoptionPercentage_between_50_and_100 :
  forall components : list (list component),
    concat components <> [] ->
    exists p,
      Summary.adoptionPercentage (Report.summary (aggregate components)) = JFin p /\
      (50 <= p <= 100)%Q.
Proof.
  intros components Hne. simpl.
  set (flat := concat components) in *.
  destruct (adoptionPercentage_value flat Hne) as (q & _ & Hsum & ->).
  rewrite round2_finite. eexists; split; [reflexivity|].
  set (n := inject_Z (Z.of_nat (length flat))).
  assert (Hn : (0 < n)%Q) by (apply length_positive_Q; exact Hne).
  pose proof (sumQ_weights_bounds flat) as [_ Hup].
  pose proof (sumQ_weights_at_least_half flat) as Hlow.
  fold n in Hup, Hlow. rewrite <- Hsum in Hup, Hlow.
  assert (Hr : ((1 # 2) <= q / (n * 1) <= 1)%Q).
  { split.
    - apply Qle_shift_div_l; lra.
    - apply Qle_shift_div_r; lra. }
  set (r := (q / (n * 1))%Q) in *.
  assert (Hfl : (5000 <= Qfloor (r * 100 * 100 + (1 # 2)) <= 10000)%Z).
  { split.
    - rewrite <- (Qfloor_Z 5000). apply Qfloor_resp_le.
      change (inject_Z 5000) with 5000%Q. lra.
    - change 10000%Z with (Qfloor (20001 # 2)). apply Qfloor_resp_le. lra. }
  destruct Hfl as [Hf1 Hf2].
  rewrite Zle_Qle in Hf1, Hf2.
  change (inject_Z 5000) with 5000%Q in Hf1.
  change (inject_Z 10000) with 10000%Q in Hf2.
  split.
  - apply Qle_shift_div_l; lra.
  - apply Qle_shift_div_r; lra.
Qed.

Lemma adoptionPercentage_between_50_and_100_witness :
  exists p,
    Summary.adoptionPercentage
      (Report.summary
         (aggregate (analysed CliExamples.two_classes_file Examples.no_tsconfig
                       DEFAULT_CONFIG ["/repo/two.ts"]))) = JFin p /\
    (50 <= p <= 100)%Q.
Proof.
  apply (adoptionPercentage_between_50_and_100
           (analysed CliExamples.two_classes_file Examples.no_tsconfig
              DEFAULT_CONFIG ["/repo/two.ts"])).
  vm_compute; discriminate.
Defined.

(** X14.  The reported [maxScore] is the number of records, and so is the
    reported [weightedScore] when every record is a design-system import;
    the reported [adoptionPercentage] is then 100, provided there is a
    record. *)
Theorem all_design_system_scores_100 :
  forall components : list (list component),
    concat components <> [] ->
    Forall (fun c => isDesignSystem c = true) (concat components) ->
    let s := Report.summary (aggregate components) in
    js_same (Summary.maxScore s) (js_of_nat (Summary.totalComponents s)) /\
    js_same (Summary.weightedScore s) (js_of_nat (Summary.totalComponents s)) /\
    js_same (Summary.adoptionPercentage s) (JFin 100%Q).
Proof.
  intros components Hne Hall s; subst s. unfold aggregate.
  cbn [Report.summary Summary.maxScore Summary.weightedScore
       Summary.adoptionPercentage Summary.totalComponents].
  set (flat := concat components) in *.
  set (n := inject_Z (Z.of_nat (length flat))).
  assert (Hn : (0 < n)%Q) by (apply length_positive_Q; exact Hne).
  assert (Hsum : (sumQ (map weight_Q flat) == n)%Q).
  { subst n. clear Hne Hn. induction flat as [|c l IH]; [reflexivity|].
    inversion Hall as [|? ? Hc Hl]; subst.
    change (length (c :: l)) with (S (length l)).
    rewrite Nat2Z.inj_succ; unfold Z.succ; rewrite inject_Z_plus.
    simpl sumQ. rewrite (IH Hl). unfold weight_Q; rewrite Hc.
    change (inject_Z 1) with 1%Q. ring. }
  destruct (adoptionPercentage_value flat Hne) as (q & Hq & Hqs & Hp).
  fold n in Hp. rewrite Hp, Hq, maxScore_value. fold n.
  rewrite Hsum in Hqs.
  split; [|split].
  - apply (round2_whole _ (Z.of_nat (length flat))). fold n. ring.
  - apply (round2_whole _ (Z.of_nat (length flat))). exact Hqs.
  - apply (round2_whole _ 100). rewrite Hqs.
    change (inject_Z 100) with 100%Q. field. lra.
Qed.

Lemma all_design_system_scores_100_witness :
  let s := Report.summary
             (aggregate [[{| name := "Button";
                             selector := None;
                             isDesignSystem := true;
                             source := JString "@ui-kit/button";
                             filePath := "/repo/a.ts";
                             viaComposition := None;
                             isDynamicImport := None;
                             usage := Some {| inline := 0; external := 0 |} |}]]) in
  js_same (Summary.maxScore s) (js_of_nat (Summary.totalComponents s)) /\
  js_same (Summary.weightedScore s) (js_of_nat (Summary.totalComponents s)) /\
  js_same (Summary.adoptionPercentage s) (JFin 100%Q).
Proof.
  apply all_design_system_scores_100.
  - discriminate.
  - repeat constructor.
Defined.

Lemma Permutation_filter_length {A} (p : A -> bool) (l1 l2 : list A) :
  Permutation l1 l2 -> length (filter p l1) = length (filter p l2).
Proof.
  induction 1 as [|x l1 l2 _ IH|x y l|l1 l2 l3 _ IH1 _ IH2]; simpl.
  - reflexivity.
  - destruct (p x); simpl; rewrite IH; reflexivity.
  - destruct (p x), (p y); reflexivity.
  - rewrite IH1; exact IH2.
Qed.

Lemma Permutation_sumQ_weights (l1 l2 : list component) :
  Permutation l1 l2 ->
  (sumQ (map weight_Q l1) == sumQ (map weight_Q l2))%Q.
Proof.
  induction 1 as [|x l1 l2 _ IH|x y l|l1 l2 l3 _ IH1 _ IH2]; simpl.
  - reflexivity.
  - rewrite IH; reflexivity.
  - ring.
  - rewrite IH1; exact IH2.
Qed.

Lemma percentage_same (q1 q2 m : Q) :
  (q1 == q2)%Q ->
  js_same (round2 (js_mul (js_div (JFin q1) (JFin m)) (JFin 100%Q)))
          (round2 (js_mul (js_div (JFin q2) (JFin m)) (JFin 100%Q))).
Proof.
  intros H. unfold js_div. destruct (Qis_zero m).
  - rewrite (Qis_zero_comp q1 q2 H), (Qsign_pos_comp q1 q2 H).
    apply js_same_refl.
  - unfold js_mul. apply round2_same. rewrite H; reflexivity.
Qed.

(** X15.  The summary does not depend on the order of the records: two
    scans whose records are the same up to their order (the files listed in
    another order, say) report the same counts and the same three
    numbers. *)
Theorem summary_independent_of_order :
  forall a b : list (list component),
    Permutation (concat a) (concat b) ->
    summary_same (Report.summary (aggregate a)) (Report.summary (aggregate b)).
Proof.
  intros a b Hperm. unfold summary_same, aggregate.
  cbn [Report.summary Summary.designSystemComponents Summary.customComponents
       Summary.totalComponents Summary.adoptionPercentage Summary.weightedScore
       Summary.maxScore].
  set (l1 := concat a) in *. set (l2 := concat b) in *.
  pose proof (Permutation_length Hperm) as Hlen.
  destruct (weightedScore_value l1) as (q1 & Hq1 & Hs1).
  destruct (weightedScore_value l2) as (q2 & Hq2 & Hs2).
  assert (Hq : (q1 == q2)%Q)
    by (rewrite Hs1, Hs2; apply Permutation_sumQ_weights; exact Hperm).
  repeat split.
  - apply Permutation_filter_length; exact Hperm.
  - apply Permutation_filter_length; exact Hperm.
  - exact Hlen.
  - unfold adoptionPercentage. rewrite Hq1, Hq2, !maxScore_value, Hlen.
    apply percentage_same; exact Hq.
  - rewrite Hq1, Hq2. apply round2_same; exact Hq.
  - rewrite !maxScore_value, Hlen. apply js_same_refl.
Qed.

Lemma summary_independent_of_order_witness :
  summary_same
    (Report.summary
       (aggregate (analysed Examples.two_files Examples.no_tsconfig DEFAULT_CONFIG
                     ["/repo/a.ts"; "/repo/c.ts"])))
    (Report.summary
       (aggregate (analysed Examples.two_files Examples.no_tsconfig DEFAULT_CONFIG
                     ["/repo/c.ts"; "/repo/a.ts"]))).
Proof.
  apply summary_independent_of_order.
  vm_compute.
  apply (Permutation_app_comm [_; _] [_; _]).
Defined.

(** * Properties of index.js *)

Lemma validatePath_cases (cli : cli_world) (path : string) :
  (fs_stat_isDirectory cli path = Resolved true /\
   validatePath cli path = ([], Ok tt)) \/
  (exists reason,
      validatePath cli path = ([], Exn ("Invalid path: " ++ reason)%string) /\
      ((fs_stat_isDirectory cli path = Resolved false /\
        reason = "The provided path is not a directory") \/
       fs_stat_isDirectory cli path = Rejected reason)).
Proof.
  unfold validatePath.
  destruct (fs_stat_isDirectory cli path) as [[|]|e]; simpl.
  - left; split; reflexivity.
  - right; eexists; split; [reflexivity|left; split; reflexivity].
  - right; exists e; split; [reflexivity|right; reflexivity].
Qed.

(** X16.  [validatePath] resolves exactly when the path is a directory.
    Otherwise it rejects, without logging, with a message that starts with
    [Invalid path: ]: followed by the error of [fs.stat], or by [The
    provided path is not a directory], the error thrown inside the [try]
    block being caught and wrapped like any other. *)
Theorem validatePath_resolves_iff_directory :
  forall (cli : cli_world) (path : string),
    (fs_stat_isDirectory cli path = Resolved true /\
     validatePath cli path = ([], Ok tt)) \/
    (exists reason,
        validatePath cli path = ([], Exn ("Invalid path: " ++ reason)%string) /\
        ((fs_stat_isDirectory cli path = Resolved false /\
          reason = "The provided path is not a directory") \/
         fs_stat_isDirectory cli path = Rejected reason)).
Proof.
  exact validatePath_cases.
Qed.

Lemma string_items_of_strings (items : list json) :
  forallb is_json_string items = true ->
  map JsonString (string_items (JsonArray items)) = items.
Proof.
  induction items as [|item items IH]; simpl; [reflexivity|].
  intros H; apply andb_prop in H; destruct H as [Hitem Hitems].
  destruct item; try discriminate. simpl.
  f_equal. apply IH; exact Hitems.
Qed.

(** What a validated document gives once spread over the defaults. *)
Lemma spread_over_default_valid (data : json) :
  validateConfig data = true ->
  exists members,
    data = JsonObject members /\
    member "designSystemPackages" members
      = Some (JsonArray (map JsonString
                           (designSystemPackages (spread_over_default data)))) /\
    member "ignore" members
      = Some (JsonArray (map JsonString (ignore (spread_over_default data)))).
Proof.
  destruct data as [| | | | |members]; try discriminate.
  unfold validateConfig, spread_over_default.
  destruct (member "designSystemPackages" members) as [packages|] eqn:Hmp;
    [|discriminate].
  destruct (member "ignore" members) as [ignored|] eqn:Hmi; [|discriminate].
  intros H; apply andb_prop in H; destruct H as [Hp Hi].
  destruct packages as [| | | |pk|]; try discriminate.
  destruct ignored as [| | | |ig|]; try discriminate.
  exists members. cbn [designSystemPackages ignore].
  rewrite (string_items_of_strings pk Hp), (string_items_of_strings ig Hi).
  split; [reflexivity|]. split; [exact Hmp|exact Hmi].
Qed.

Lemma loadConfig_cases (w : world) (cli : cli_world) (configPath : string) :
  (exists text data,
      fs_readFile w configPath = Resolved text /\
      JSON_parse cli text = Normal data /\
      validateConfig data = true /\
      loadConfig w cli configPath = ([], Ok (spread_over_default data))) \/
  (exists reason,
      loadConfig w cli configPath
      = ([("Failed to load config: " ++ reason
           ++ ". Using default configuration.")%string], Ok DEFAULT_CONFIG)).
Proof.
  unfold loadConfig.
  destruct (fs_readFile w configPath) as [text|e] eqn:Hr; simpl;
    [|right; exists e; reflexivity].
  destruct (JSON_parse cli text) as [data|e] eqn:Hp; simpl;
    [|right; exists e; reflexivity].
  destruct (validateConfig data) eqn:Hv; simpl.
  - left; exists text, data; repeat split; assumption.
  - right; exists ("Invalid configuration: " ++ ajv_errorsText cli data)%string.
    reflexivity.
Qed.

(** X17.  [loadConfig] never rejects, and what it does is decided by the
    file.  When the file is read, parses as JSON and passes the schema, it
    resolves without a warning and the configuration has exactly the two
    string lists of the document.  When the file cannot be read, does not
    parse, or fails the schema, it logs one warning that carries the reason
    and resolves with [DEFAULT_CONFIG]. *)
Theorem loadConfig_valid_or_default :
  forall (w : world) (cli : cli_world) (configPath : string),
    (forall text data,
        fs_readFile w configPath = Resolved text ->
        JSON_parse cli text = Normal data ->
        validateConfig data = true ->
        exists members loaded,
          data = JsonObject members /\
          loadConfig w cli configPath = ([], Ok loaded) /\
          member "designSystemPackages" members
            = Some (JsonArray (map JsonString (designSystemPackages loaded))) /\
          member "ignore" members
            = Some (JsonArray (map JsonString (ignore loaded)))) /\
    (forall reason,
        fs_readFile w configPath = Rejected reason ->
        loadConfig w cli configPath
        = ([("Failed to load config: " ++ reason
             ++ ". Using default configuration.")%string], Ok DEFAULT_CONFIG)) /\
    (forall text reason,
        fs_readFile w configPath = Resolved text ->
        JSON_parse cli text = Throw reason ->
        loadConfig w cli configPath
        = ([("Failed to load config: " ++ reason
             ++ ". Using default configuration.")%string], Ok DEFAULT_CONFIG)) /\
    (forall text data,
        fs_readFile w configPath = Resolved text ->
        JSON_parse cli text = Normal data ->
        validateConfig data = false ->
        loadConfig w cli configPath
        = ([("Failed to load config: "
             ++ ("Invalid configuration: " ++ ajv_errorsText cli data)
             ++ ". Using default configuration.")%string], Ok DEFAULT_CONFIG)).
Proof.
  intros w cli configPath. split; [|split; [|split]].
  - intros text data Hr Hp Hv.
    destruct (spread_over_default_valid data Hv) as (members & -> & Hpk & Hig).
    exists members, (spread_over_default (JsonObject members)).
    split; [reflexivity|]. split; [|split; assumption].
    unfold loadConfig. rewrite Hr. cbn [await bind ret].
    rewrite Hp. cbn [run_sync bind ret]. rewrite Hv. reflexivity.
  - intros reason Hr. unfold loadConfig. rewrite Hr; reflexivity.
  - intros text reason Hr Hp. unfold loadConfig.
    rewrite Hr; simpl. rewrite Hp; reflexivity.
  - intros text data Hr Hp Hv. unfold loadConfig.
    rewrite Hr. cbn [await bind ret].
    rewrite Hp. cbn [run_sync bind ret]. rewrite Hv. reflexivity.
Qed.

(** The two configuration files of the examples: one that passes the
    schema and is taken over, one whose [designSystemPackages] is not an
    array and is replaced by the defaults with a warning. *)
Example loadConfig_acme :
  loadConfig CliExamples.repo_with_configs (CliExamples.cli CliExamples.documents)
    "/cwd/acme.json"
  = ([], Ok {| designSystemPackages := ["@acme"]; ignore := [] |}).
Proof. vm_compute; reflexivity. Qed.

Example loadConfig_bad :
  exists line,
    loadConfig CliExamples.repo_with_configs (CliExamples.cli CliExamples.documents)
      "/cwd/bad.json" = ([line], Ok DEFAULT_CONFIG).
Proof. eexists; vm_compute; reflexivity. Qed.

Lemma snd_try_catch {A} (body : Exec A) (handler : error -> Exec A) :
  snd (try_catch body handler) =
  match snd body with
  | Exn e => snd (handler e)
  | other => other
  end.
Proof.
  destruct body as [l [v|e|]]; simpl; try reflexivity.
  destruct (handler e); reflexivity.
Qed.

Lemma loadConfig_resolves (w : world) (cli : cli_world) (configPath : string) :
  exists loaded, snd (loadConfig w cli configPath) = Ok loaded.
Proof.
  destruct (loadConfig_cases w cli configPath) as
    [(text & data & _ & _ & _ & ->)|(reason & ->)]; eexists; reflexivity.
Qed.

(** How [run] ends, step by step. *)
Lemma snd_run (w : world) (cli : cli_world) (options : Options.t)
    (repoPath : string) :
  snd (run w cli options repoPath) =
  match snd (validatePath cli repoPath) with
  | Exn e => Ok (Exited 1 scan_error e)
  | OutOfFuel => OutOfFuel
  | Ok _ =>
      match snd (scanRepository w repoPath (chosen_config w cli options)
                   (Options.incremental options)) with
      | Exn e => Ok (Exited 1 scan_error e)
      | OutOfFuel => OutOfFuel
      | Ok report =>
          let text := JSON_stringify cli (final_report cli options repoPath report) in
          match given (Options.output options) with
          | None => Ok (Printed text)
          | Some o =>
              match fs_writeFile cli (path_resolve_cwd cli o) text with
              | Resolved _ => Ok (Saved (path_resolve_cwd cli o) text)
              | Rejected e => Ok (Exited 1 scan_error e)
              end
          end
      end
  end.
Proof.
  unfold run. rewrite snd_try_catch, snd_bind.
  destruct (snd (validatePath cli repoPath)) as [[]|e|]; try reflexivity.
  rewrite snd_bind. unfold chosen_config.
  assert (Hscan : forall cfg,
    match
      snd (report <- scanRepository w repoPath cfg (Options.incremental options) ;;
           match given (Options.output options) with
           | Some o =>
               _ <- await (fs_writeFile cli (path_resolve_cwd cli o)
                             (JSON_stringify cli
                                (final_report cli options repoPath report))) ;;
               ret (Saved (path_resolve_cwd cli o)
                      (JSON_stringify cli
                         (final_report cli options repoPath report)))
           | None =>
               ret (Printed (JSON_stringify cli
                               (final_report cli options repoPath report)))
           end)
    with
    | Exn e => snd (handleError e "Error during repository scan")
    | other => other
    end =
    match snd (scanRepository w repoPath cfg (Options.incremental options)) with
    | Ok report =>
        match given (Options.output options) with
        | Some o =>
            match fs_writeFile cli (path_resolve_cwd cli o)
                    (JSON_stringify cli (final_report cli options repoPath report))
            with
            | Resolved _ =>
                Ok (Saved (path_resolve_cwd cli o)
                      (JSON_stringify cli
                         (final_report cli options repoPath report)))
            | Rejected e => Ok (Exited 1 scan_error e)
            end
        | None =>
            Ok (Printed (JSON_stringify cli
                           (final_report cli options repoPath report)))
        end
    | Exn e => Ok (Exited 1 scan_error e)
    | OutOfFuel => OutOfFuel
    end).
  { intros cfg. rewrite snd_bind.
    destruct (snd (scanRepository w repoPath cfg (Options.incremental options)))
      as [report|e|]; try reflexivity.
    destruct (given (Options.output options)) as [o|]; [|reflexivity].
    rewrite snd_bind. unfold await.
    destruct (fs_writeFile cli (path_resolve_cwd cli o)
                (JSON_stringify cli (final_report cli options repoPath report)));
      reflexivity. }
  destruct (given (Options.config options)) as [c|].
  - destruct (loadConfig_resolves w cli (path_resolve_cwd cli c)) as (loaded & ->).
    apply Hscan.
  - apply Hscan.
Qed.

Lemma scanRepository_not_OutOfFuel (w : world) (repoPath : string)
    (config : scan_config) (incremental : bool) :
  snd (scanRepository w repoPath config incremental) <> OutOfFuel.
Proof.
  destruct (scanRepository_settles_cases w repoPath config incremental) as
    [(r & ->)|(e & -> & _)]; discriminate.
Qed.

Lemma validatePath_not_OutOfFuel (cli : cli_world) (path : string) :
  snd (validatePath cli path) <> OutOfFuel.
Proof.
  destruct (validatePath_cases cli path) as [(_ & ->)|(reason & -> & _)];
    discriminate.
Qed.

(** X18.  The command line always ends, in one of three ways: the report
    is printed, which happens only without [-o]; the report is saved, which
    happens only with [-o] and after the write succeeded; or the process
    exits, and then with code 1. *)
Theorem main_settles :
  forall (w : world) (cli : cli_world) (options : Options.t),
    exists outcome,
      snd (main w cli options) = Ok outcome /\
      match outcome with
      | Exited code _ _ => code = 1
      | Saved outputPath text =>
          exists o u,
            given (Options.output options) = Some o /\
            outputPath = path_resolve_cwd cli o /\
            fs_writeFile cli outputPath text = Resolved u
      | Printed _ => given (Options.output options) = None
      end.
Proof.
  intros w cli options. unfold main.
  destruct (given (Options.path options)) as [repoPath|];
    [|eexists; split; reflexivity].
  rewrite snd_run.
  pose proof (validatePath_not_OutOfFuel cli repoPath) as Hv.
  destruct (snd (validatePath cli repoPath)) as [[]|e|];
    [|eexists; split; reflexivity|congruence].
  pose proof (scanRepository_not_OutOfFuel w repoPath
                (chosen_config w cli options) (Options.incremental options)) as Hs.
  destruct (snd (scanRepository w repoPath (chosen_config w cli options)
                   (Options.incremental options))) as [report|e|];
    [|eexists; split; reflexivity|congruence].
  cbv zeta.
  destruct (given (Options.output options)) as [o|];
    [|eexists; split; reflexivity].
  destruct (fs_writeFile cli (path_resolve_cwd cli o)
              (JSON_stringify cli (final_report cli options repoPath report)))
    as [u|e] eqn:Hw.
  - eexists; split; [reflexivity|]. exists o, u. repeat split. exact Hw.
  - eexists; split; reflexivity.
Qed.

(** X19.  When the path is not a directory, or cannot be inspected, the
    command line exits with code 1 and the [Invalid path: ] message, having
    logged nothing: no configuration is loaded and nothing of the
    repository is read, whatever it holds. *)
Theorem main_invalid_path_exits :
  forall (w : world) (cli : cli_world) (options : Options.t) (repoPath : string),
    given (Options.path options) = Some repoPath ->
    fs_stat_isDirectory cli repoPath <> Resolved true ->
    exists reason,
      main w cli options
      = ([], Ok (Exited 1 scan_error ("Invalid path: " ++ reason)%string)).
Proof.
  intros w cli options repoPath Hpath Hstat. unfold main. rewrite Hpath.
  destruct (validatePath_cases cli repoPath) as [(Hd & _)|(reason & Hv & _)];
    [contradiction|].
  exists reason. unfold run. rewrite Hv. reflexivity.
Qed.

Lemma main_invalid_path_exits_witness :
  exists reason,
    main CliExamples.repo_with_configs (CliExamples.cli CliExamples.documents)
      (CliExamples.options (Some "/repo/a.ts") None None false)
    = ([], Ok (Exited 1 scan_error ("Invalid path: " ++ reason)%string)).
Proof.
  apply (main_invalid_path_exits CliExamples.repo_with_configs
           (CliExamples.cli CliExamples.documents)
           (CliExamples.options (Some "/repo/a.ts") None None false)
           "/repo/a.ts").
  - reflexivity.
  - discriminate.
Defined.

(** X20.  A configuration file that cannot be used does not stop the run:
    whenever [loadConfig] falls back to [DEFAULT_CONFIG], the command line
    ends exactly as it does without the [-c] option. *)
Theorem main_unusable_config_as_no_config :
  forall (w : world) (cli : cli_world) (options : Options.t) (c : string),
    given (Options.config options) = Some c ->
    snd (loadConfig w cli (path_resolve_cwd cli c)) = Ok DEFAULT_CONFIG ->
    snd (main w cli options) = snd (main w cli (without_config options)).
Proof.
  intros w cli options c Hc Hload. unfold main.
  change (Options.path (without_config options)) with (Options.path options).
  destruct (given (Options.path options)) as [repoPath|]; [|reflexivity].
  rewrite !snd_run.
  assert (Hcfg : chosen_config w cli options
                 = chosen_config w cli (without_config options)).
  { unfold chosen_config. rewrite Hc, Hload. reflexivity. }
  rewrite Hcfg. reflexivity.
Qed.

Lemma main_unusable_config_as_no_config_witness :
  snd (main CliExamples.repo_with_configs (CliExamples.cli CliExamples.documents)
         (CliExamples.options (Some "/repo") (Some "bad.json") None false))
  = snd (main CliExamples.repo_with_configs (CliExamples.cli CliExamples.documents)
           (without_config
              (CliExamples.options (Some "/repo") (Some "bad.json") None false))).
Proof.
  apply (main_unusable_config_as_no_config CliExamples.repo_with_configs
           (CliExamples.cli CliExamples.documents)
           (CliExamples.options (Some "/repo") (Some "bad.json") None false)
           "bad.json").
  - reflexivity.
  - vm_compute; reflexivity.
Defined.

(** * A lazy-loading call *)

(** X21.  In a file that is read, parsed and walked to the end, a call
    [loadChildren(first, ...)] by that bare name yields one record, placed
    after the records of everything entered before the call: a
    dynamic-import reference named [lazy-loaded] whose [source] is the
    [value] of the first argument (the string of a string literal) and whose
    weight is 0.5, whatever else the file declares. *)
Theorem loadChildren_call_record :
  forall (w : world) (file content : string) (tsConfig : ts_config)
         (config : scan_config) (tree : ast) (pre post : list node)
         (first : expression) (others : list expression)
         (final : visitor_state),
    fs_readFile w file = Resolved content ->
    babel_parse w content = Normal tree ->
    preorder tree
      = pre ++ CallExpression (Identifier "loadChildren") (first :: others) :: post ->
    traverse w file tsConfig config tree = Normal final ->
    exists st_pre c after,
      visit_all w file tsConfig config pre initial_state = Normal st_pre /\
      snd (analyzeFile w file tsConfig config)
        = Ok (components st_pre ++ c :: after) /\
      classify c = dynamic_import_reference /\
      name c = "lazy-loaded" /\
      source c = expression_value first /\
      filePath c = file /\
      weight c = JFin (5 # 10)%Q.
Proof.
  intros w file content tsConfig config tree pre post first others final
         Hread Hparse Hpre Hwalk.
  rewrite (analyzeFile_traversed _ _ _ _ _ _ _ Hread Hparse Hwalk).
  unfold traverse in Hwalk. rewrite Hpre, visit_all_app in Hwalk.
  apply cbind_Normal_inv in Hwalk. destruct Hwalk as (st_pre & Hst_pre & Hwalk).
  simpl in Hwalk.
  destruct (visit_all_steps _ _ _ _ _ _ _ Hwalk) as (_ & after & Hafter).
  simpl in Hafter.
  eexists st_pre, _, after. split; [exact Hst_pre|].
  split; [simpl; rewrite Hafter, <- app_assoc; reflexivity|].
  repeat split.
Qed.

Lemma loadChildren_call_record_witness :
  exists st_pre c after,
    visit_all CliExamples.lazy_file "/repo/routes.ts" Examples.no_tsconfig
      DEFAULT_CONFIG (Examples.entered_before_second_statement ++ [OtherNode])
      initial_state = Normal st_pre /\
    snd (analyzeFile CliExamples.lazy_file "/repo/routes.ts" Examples.no_tsconfig
           DEFAULT_CONFIG)
      = Ok (components st_pre ++ c :: after) /\
    classify c = dynamic_import_reference /\
    name c = "lazy-loaded" /\
    source c = expression_value (StringLiteral "./lazy/module") /\
    filePath c = "/repo/routes.ts" /\
    weight c = JFin (5 # 10)%Q.
Proof.
  eapply (loadChildren_call_record CliExamples.lazy_file "/repo/routes.ts"
            "import-then-lazy" Examples.no_tsconfig DEFAULT_CONFIG
            CliExamples.import_then_lazy
            (Examples.entered_before_second_statement ++ [OtherNode])).
  - reflexivity.
  - reflexivity.
  - reflexivity.
  - vm_compute; reflexivity.
Defined.


(** * Imports of an installed package *)

